(** * Arb-sports-bot: the arbitrage engine of [utils/arbitrage.py]

    A shallow embedding of the arbitrage detection engine
    ([_best_odds_by_outcome], [_arb_edge], [_stakes_for_edge],
    [find_arbs_for_event]) and of the configuration defaults of [main.py],
    with the properties the specification states about them.

    Python's [float] appears through an interface, [PyFloat], that the
    engine is written against once.  It has two instances:
    - [binary64], IEEE 754 double precision as Rocq's primitive floats
      compute it: what CPython runs;
    - [exact], the rationals: the same program with no rounding, the
      reference for the algebraic identities that rounding blurs. *)

From Stdlib Require Import ZArith QArith Qround Bool List String Ascii DecimalString.
From Stdlib Require Import Lia Lqa Field.
From Stdlib Require Import Floats Permutation.
Import ListNotations.

Set Implicit Arguments.
Local Open Scope Z_scope.
Local Open Scope string_scope.
Local Open Scope list_scope.

(** ** Strings: [str.lower], [str.strip], [str.split]

    Identifiers are byte strings; the case and white-space functions act on
    the ASCII range, as Python's do on ASCII text. *)

Definition lower_ascii (c : ascii) : ascii :=
  let n := N_of_ascii c in
  if ((65 <=? n) && (n <=? 90))%N then ascii_of_N (n + 32) else c.

Fixpoint lower (s : string) : string :=
  match s with
  | EmptyString => EmptyString
  | String c s' => String (lower_ascii c) (lower s')
  end.

(** [str.isspace] on one ASCII character: TAB, LF, VT, FF, CR, the four
    separators FS..US, and the space. *)
Definition is_space (c : ascii) : bool :=
  let n := N_of_ascii c in
  (((9 <=? n) && (n <=? 13)) || ((28 <=? n) && (n <=? 32)))%N.

Fixpoint lstrip (s : string) : string :=
  match s with
  | EmptyString => EmptyString
  | String c s' => if is_space c then lstrip s' else s
  end.

Fixpoint rstrip (s : string) : string :=
  match s with
  | EmptyString => EmptyString
  | String c s' =>
      match rstrip s' with
      | EmptyString => if is_space c then EmptyString else String c EmptyString
      | t => String c t
      end
  end.

Definition strip (s : string) : string := rstrip (lstrip s).

(** [s.split(sep)] for a one-character separator: never an empty list. *)
Fixpoint split_on (sep : ascii) (s : string) : list string :=
  match s with
  | EmptyString => [EmptyString]
  | String c s' =>
      if Ascii.eqb c sep then EmptyString :: split_on sep s'
      else match split_on sep s' with
           | [] => [String c EmptyString]
           | w :: ws => String c w :: ws
           end
  end.

(** Truthiness of a string, and [a or b] on strings one of which may be
    [None]. *)
Definition str_truthy (s : string) : bool :=
  match s with EmptyString => false | _ => true end.

Definition or_str (a : option string) (b : string) : string :=
  match a with
  | Some s => if str_truthy s then s else b
  | None => b
  end.

(** Membership in a Python [set] of strings.  The engine only tests a set for
    emptiness and membership, so a list of its elements stands for it. *)
Definition str_in (x : string) (s : list string) : bool :=
  existsb (String.eqb x) s.

Definition set_truthy (s : list string) : bool :=
  match s with [] => false | _ => true end.

(** ** Dictionaries

    A Python [dict] keeps its keys in insertion order and [d[k] = v] on a
    present key keeps the key's place; [sum(d.values())] adds in that order.
    So a dictionary is an association list with distinct keys. *)

Section Dict.
Variable V : Type.

Definition dict := list (string * V).

Fixpoint dict_get (d : dict) (k : string) : option V :=
  match d with
  | [] => None
  | (k', v) :: d' => if String.eqb k' k then Some v else dict_get d' k
  end.

Definition dict_mem (d : dict) (k : string) : bool :=
  match dict_get d k with Some _ => true | None => false end.

Fixpoint dict_set (d : dict) (k : string) (v : V) : dict :=
  match d with
  | [] => [(k, v)]
  | (k', v') :: d' =>
      if String.eqb k' k then (k', v) :: d' else (k', v') :: dict_set d' k v
  end.

Definition dict_keys (d : dict) : list string := map fst d.
Definition dict_values (d : dict) : list V := map snd d.
Definition dict_len (d : dict) : nat := List.length d.
End Dict.

(** ** Exceptions

    The one exception the arithmetic of the engine can raise is
    [ZeroDivisionError], from [/] on floats. *)

Inductive exn : Type := ZeroDivisionError.

Inductive result (A : Type) : Type :=
| Ok (a : A)
| Raise (e : exn).
Arguments Ok {A} a.
Arguments Raise {A} e.

Definition bind {A B : Type} (c : result A) (k : A -> result B) : result B :=
  match c with
  | Ok a => k a
  | Raise e => Raise e
  end.

Notation "x <- c ;; k" := (bind c (fun x => k))
  (at level 61, c at next level, right associativity).

(** A comprehension whose body may raise: left to right, stopping at the
    first exception. *)
Fixpoint mapM {A B : Type} (f : A -> result B) (l : list A) : result (list B) :=
  match l with
  | [] => Ok []
  | a :: l' => b <- f a ;; bs <- mapM f l' ;; Ok (b :: bs)
  end.

(** ** The float interface *)

Class PyFloat (F : Type) : Type := {
  (** the decimal literal [m * 10^-k], as Python reads it *)
  of_dec : Z -> nat -> F;
  fadd : F -> F -> F;
  fsub : F -> F -> F;
  fmul : F -> F -> F;
  (** [x / y] for a divisor that does not compare equal to zero *)
  fdiv : F -> F -> F;
  feqb : F -> F -> bool;
  fltb : F -> F -> bool;
  fleb : F -> F -> bool;
  (** [math.isfinite] *)
  isfinite : F -> bool;
  (** the built-in [round(x, ndigits)] *)
  py_round : F -> nat -> F
}.

Section Engine.
Context {F : Type} `{PyFloat F}.

Definition f0 : F := of_dec 0 0.
Definition f1 : F := of_dec 1 0.
Definition f100 : F := of_dec 100 0.

(** [x / y]: Python raises on a zero divisor instead of returning an
    infinity or a NaN. *)
Definition py_div (x y : F) : result F :=
  if feqb y f0 then Raise ZeroDivisionError else Ok (fdiv x y).

(** [sum(xs)]: the items added one by one to the start value [0], in
    order.  (From CPython 3.12 on, [sum] carries a compensation term over
    floats; on at most two items the result is the same.) *)
Definition py_sum (xs : list F) : F := fold_left fadd xs f0.

(** *** The event, as The Odds API delivers it

    A field is [None] when its key is missing from the JSON object. *)

(** What [out.get("price")] and [float(price)] make of a price field. *)
Inductive raw_price : Type :=
| PriceNone                (* the field is missing or [None] *)
| PriceBad                 (* [float(price)] raises *)
| PriceVal (x : F).        (* [float(price)] is [x] *)

Record outcome : Type := {
  out_name : option string;
  out_price : raw_price
}.

Record market : Type := {
  mkt_key : option string;
  mkt_outcomes : option (list outcome)
}.

Record bookmaker : Type := {
  bm_title : option string;
  bm_key : option string;
  bm_markets : option (list market)
}.

Record event : Type := {
  ev_id : option string;
  ev_sport_title : option string;
  ev_commence_time : option string;
  ev_home_team : option string;
  ev_away_team : option string;
  ev_bookmakers : option (list bookmaker)
}.

Definition get_list {A : Type} (l : option (list A)) : list A :=
  match l with Some l' => l' | None => [] end.

(** *** [_best_odds_by_outcome] *)

(** [(bm.get("title") or bm.get("key") or "").lower()] *)
Definition bm_name (bm : bookmaker) : string :=
  lower (or_str (bm_title bm) (or_str (bm_key bm) "")).

(** [bookmaker_whitelist and name not in bookmaker_whitelist] *)
Definition whitelist_skips (bookmaker_whitelist : list string) (name : string) : bool :=
  set_truthy bookmaker_whitelist && negb (str_in name bookmaker_whitelist).

(** [not isfinite(price) or price <= 1.0] *)
Definition price_rejected (price : F) : bool :=
  negb (isfinite price) || fleb price f1.

Definition snapshot : Type := (dict F * dict string)%type.

(** The guarded assignment at the end of the innermost loop. *)
Definition record_price (name outcome_name : string) (price : F) (st : snapshot)
  : snapshot :=
  let '(best, source) := st in
  let update := (dict_set best outcome_name price, dict_set source outcome_name name) in
  match dict_get best outcome_name with
  | None => update
  | Some b => if fltb b price then update else st
  end.

(** The body of [for out in market.get("outcomes", [])]. *)
Definition visit_outcome (name : string) (st : snapshot) (out : outcome) : snapshot :=
  match out_name out, out_price out with
  | None, _ => st
  | Some _, PriceNone => st
  | Some _, PriceBad => st
  | Some outcome_name, PriceVal price =>
      if price_rejected price then st
      else record_price name outcome_name price st
  end.

Definition is_h2h (k : option string) : bool :=
  match k with Some s => String.eqb s "h2h" | None => false end.

(** The body of [for market in bm.get("markets", [])]. *)
Definition visit_market (name : string) (st : snapshot) (m : market) : snapshot :=
  if negb (is_h2h (mkt_key m)) then st
  else fold_left (visit_outcome name) (get_list (mkt_outcomes m)) st.

(** The body of [for bm in bookmakers]. *)
Definition visit_bookmaker (bookmaker_whitelist : list string) (st : snapshot)
    (bm : bookmaker) : snapshot :=
  let name := bm_name bm in
  if whitelist_skips bookmaker_whitelist name then st
  else fold_left (visit_market name) (get_list (bm_markets bm)) st.

Definition _best_odds_by_outcome (bookmakers : list bookmaker)
    (bookmaker_whitelist : list string) : snapshot :=
  fold_left (visit_bookmaker bookmaker_whitelist) bookmakers ([], []).

(** *** [_arb_edge] and [_stakes_for_edge] *)

Definition _arb_edge (best : dict F) : result F :=
  invs <- mapM (fun o => py_div f1 o) (dict_values best) ;;
  let inv_sum := py_sum invs in
  Ok (fmul (fsub f1 inv_sum) f100).

(** The keys of a dictionary are distinct, so a comprehension over its
    items builds its result entry by entry. *)
Definition _stakes_for_edge (best : dict F) (bankroll : F) : result (dict F) :=
  inv <- mapM (fun kv => x <- py_div f1 (snd kv) ;; Ok (fst kv, x)) best ;;
  let inv_sum := py_sum (dict_values inv) in
  mapM (fun kv => s <- py_div (fmul bankroll (snd kv)) inv_sum ;; Ok (fst kv, s)) inv.

(** *** [find_arbs_for_event] *)

Record opportunity : Type := {
  event_id : option string;
  sport_title : option string;
  commence_time : option string;
  home : option string;
  away : option string;
  best_odds : dict F;
  best_books : dict string;
  edge_pct : F;
  stakes_100 : dict F
}.

(** The default of the parameter [min_edge_pct]. *)
Definition default_min_edge_pct : F := of_dec 25 2.

(** [len(best) not in (2, 3)] *)
Definition outcome_count_ok (best : dict F) : bool :=
  (dict_len best =? 2)%nat || (dict_len best =? 3)%nat.

(** An argument left out is [None] here; [min_edge_pct] then takes its
    default and [bookmaker_whitelist or set()] is the empty set. *)
Definition find_arbs_for_event (ev : event) (min_edge_pct : option F)
    (bookmaker_whitelist : option (list string)) : result (list opportunity) :=
  let min_edge_pct :=
    match min_edge_pct with Some t => t | None => default_min_edge_pct end in
  let bookmaker_whitelist := get_list bookmaker_whitelist in
  let bms := get_list (ev_bookmakers ev) in
  match bms with
  | [] => Ok []
  | _ :: _ =>
      let '(best, source) := _best_odds_by_outcome bms bookmaker_whitelist in
      if negb (outcome_count_ok best) then Ok []
      else
        edge <- _arb_edge best ;;
        if fleb edge min_edge_pct then Ok []
        else
          stakes <- _stakes_for_edge best f100 ;;
          Ok [ {| event_id := ev_id ev;
                  sport_title := ev_sport_title ev;
                  commence_time := ev_commence_time ev;
                  home := ev_home_team ev;
                  away := ev_away_team ev;
                  best_odds := best;
                  best_books := source;
                  edge_pct := py_round edge 4;
                  stakes_100 := map (fun kv => (fst kv, py_round (snd kv) 2)) stakes |} ]
  end.

(** *** The configuration of [main.py] *)

(** The two environment variables the engine's arguments come from:
    [MIN_EDGE_PCT], read through [float], and [BOOKMAKER_WHITELIST]. *)
Record environ : Type := {
  env_MIN_EDGE_PCT : option F;
  env_BOOKMAKER_WHITELIST : option string
}.

(** [float(os.getenv("MIN_EDGE_PCT", "0.5"))] *)
Definition MIN_EDGE_PCT (env : environ) : F :=
  match env_MIN_EDGE_PCT env with Some x => x | None => of_dec 5 1 end.

(** [set([b.strip().lower() for b in
         os.getenv("BOOKMAKER_WHITELIST", "").split(",") if b.strip()])] *)
Definition BOOKMAKER_WHITELIST (env : environ) : list string :=
  let raw := match env_BOOKMAKER_WHITELIST env with Some s => s | None => "" end in
  map (fun b => lower (strip b))
      (filter (fun b => str_truthy (strip b)) (split_on "," raw)).

(** The call [scan_once] makes for one event. *)
Definition scan_event (env : environ) (ev : event) : result (list opportunity) :=
  find_arbs_for_event ev (Some (MIN_EDGE_PCT env)) (Some (BOOKMAKER_WHITELIST env)).

End Engine.

Arguments raw_price F : clear implicits.
Arguments outcome F : clear implicits.
Arguments market F : clear implicits.
Arguments bookmaker F : clear implicits.
Arguments event F : clear implicits.
Arguments opportunity F : clear implicits.
Arguments environ F : clear implicits.
Arguments snapshot F : clear implicits.
Arguments PriceNone {F}.
Arguments PriceBad {F}.

(** ** The instance [binary64]: IEEE 754 doubles *)

Module Binary64.

Definition of_Z (z : Z) : float :=
  match z with
  | Z0 => 0%float
  | Zpos _ => of_uint63 (Uint63.of_Z z)
  | Zneg p => (- of_uint63 (Uint63.of_Z (Zpos p)))%float
  end.

(** For a literal of up to 15 digits both [m] and [10^k] are doubles, and
    their quotient, rounded once, is the double nearest to the literal. *)
Definition of_dec (m : Z) (k : nat) : float :=
  (of_Z m / of_Z (10 ^ Z.of_nat k))%float.

(** The integer nearest to [num / den], ties to even ([0 < den]). *)
Definition div_half_even (num den : Z) : Z :=
  let q := num / den in
  let r := num mod den in
  match 2 * r ?= den with
  | Lt => q
  | Gt => q + 1
  | Eq => if Z.even q then q else q + 1
  end.

(** [round(x, ndigits)] for [0 <= ndigits]: the decimal with [ndigits]
    places nearest to the exact value of [x], ties to even, then the double
    nearest to that decimal.  Infinities, NaN and integral doubles round
    to themselves. *)
Definition round (x : float) (ndigits : nat) : float :=
  match Prim2SF x with
  | S754_finite s m (Zneg e) =>
      let p := 10 ^ Z.of_nat ndigits in
      match div_half_even (Zpos m * p) (2 ^ Zpos e) with
      | Zpos r =>
          SF2Prim (SFdiv prec emax (S754_finite s r 0)
                                   (S754_finite false (Z.to_pos p) 0))
      | _ => SF2Prim (S754_zero s)
      end
  | _ => x
  end.

End Binary64.

#[export] Instance binary64 : PyFloat float := {
  of_dec := Binary64.of_dec;
  fadd := PrimFloat.add;
  fsub := PrimFloat.sub;
  fmul := PrimFloat.mul;
  fdiv := PrimFloat.div;
  feqb := PrimFloat.eqb;
  fltb := PrimFloat.ltb;
  fleb := PrimFloat.leb;
  isfinite := PrimFloat.is_finite;
  py_round := Binary64.round
}.

(** ** The instance [exact]: the same arithmetic without rounding *)

Module Exact.

Definition of_dec (m : Z) (k : nat) : Q :=
  (inject_Z m / inject_Z (10 ^ Z.of_nat k))%Q.

Definition ltb (x y : Q) : bool := negb (Qle_bool y x).

Definition round (x : Q) (ndigits : nat) : Q :=
  let p := 10 ^ Z.of_nat ndigits in
  let y := Qred (x * inject_Z p)%Q in
  (inject_Z (Binary64.div_half_even (Qnum y) (Zpos (Qden y))) / inject_Z p)%Q.

End Exact.

#[export] Instance exact : PyFloat Q := {
  of_dec := Exact.of_dec;
  fadd := Qplus;
  fsub := Qminus;
  fmul := Qmult;
  fdiv := Qdiv;
  feqb := Qeq_bool;
  fltb := Exact.ltb;
  fleb := Qle_bool;
  isfinite := fun _ => true;
  py_round := Exact.round
}.

(** ** The order of binary64

    IEEE comparison, read off the specification of the primitive floats: a
    double that is not a NaN has a key, a triple of integers, and [<], [<=]
    and [==] on doubles are the lexicographic order and equality of keys. *)

Module F64.

Local Open Scope Z_scope.

Definition key : Type := (Z * Z * Z)%type.

Definition sf_key (x : spec_float) : key :=
  match x with
  | S754_nan => (0, 0, 0)
  | S754_zero _ => (0, 0, 0)
  | S754_infinity s => (if s then -2 else 2, 0, 0)
  | S754_finite s m e => if s then (-1, - e, Zneg m) else (1, e, Zpos m)
  end.

Definition lex3 (a b : key) : comparison :=
  let '(a1, a2, a3) := a in
  let '(b1, b2, b3) := b in
  match a1 ?= b1 with
  | Eq => match a2 ?= b2 with Eq => a3 ?= b3 | c => c end
  | c => c
  end.

Definition klt (a b : key) : Prop :=
  let '(a1, a2, a3) := a in
  let '(b1, b2, b3) := b in
  a1 < b1 \/ (a1 = b1 /\ (a2 < b2 \/ (a2 = b2 /\ a3 < b3))).

Definition kle (a b : key) : Prop := klt a b \/ a = b.

Definition fkey (x : float) : key := sf_key (Prim2SF x).

Definition not_nan (x : float) : Prop := is_nan x = false.

(** The doubles above zero, and those not below it, by their shape. *)
Definition positive_sf (x : spec_float) : bool :=
  match x with
  | S754_finite false _ _ | S754_infinity false => true
  | _ => false
  end.

Definition nonneg_sf (x : spec_float) : bool :=
  match x with
  | S754_zero _ => true
  | _ => positive_sf x
  end.

End F64.

(** ** Notions the properties are stated with *)

Section Views.
Context {F : Type} `{PyFloat F}.

(** A listing that takes part in the selection: the lower-cased bookmaker
    name, the outcome label and the parsed price. *)
Definition listing : Type := (string * string * F)%type.

(** The listing an outcome entry contributes, if it passes the guards of
    the innermost loop. *)
Definition outcome_listings (name : string) (out : outcome F) : list listing :=
  match out_name out, out_price out with
  | Some outcome_name, PriceVal price =>
      if price_rejected price then [] else [(name, outcome_name, price)]
  | _, _ => []
  end.

Definition market_listings (name : string) (m : market F) : list listing :=
  if is_h2h (mkt_key m)
  then flat_map (outcome_listings name) (get_list (mkt_outcomes m))
  else [].

Definition bookmaker_listings (bookmaker_whitelist : list string)
    (bm : bookmaker F) : list listing :=
  if whitelist_skips bookmaker_whitelist (bm_name bm) then []
  else flat_map (market_listings (bm_name bm)) (get_list (bm_markets bm)).

(** The qualifying listings of an event, in the order the loops meet them. *)
Definition listings (bookmakers : list (bookmaker F))
    (bookmaker_whitelist : list string) : list listing :=
  flat_map (bookmaker_listings bookmaker_whitelist) bookmakers.

Definition record_listing (st : snapshot F) (l : listing) : snapshot F :=
  record_price (fst (fst l)) (snd (fst l)) (snd l) st.

(** The bookmakers the allow-list lets through. *)
Definition bookmaker_allowed (bookmaker_whitelist : list string)
    (bm : bookmaker F) : bool :=
  negb (whitelist_skips bookmaker_whitelist (bm_name bm)).

(** The identifier of a bookmaker as the event spells it. *)
Definition bm_identifier (bm : bookmaker F) : string :=
  or_str (bm_title bm) (or_str (bm_key bm) "").

(** Membership that ignores the case of both sides. *)
Definition ci_member (x : string) (s : list string) : bool :=
  existsb (fun e => String.eqb (lower e) (lower x)) s.

(** The snapshot of an event and its unrounded edge, as
    [find_arbs_for_event] computes them. *)
Definition event_snapshot (ev : event F) (bookmaker_whitelist : option (list string))
  : snapshot F :=
  _best_odds_by_outcome (get_list (ev_bookmakers ev)) (get_list bookmaker_whitelist).

Definition event_edge (ev : event F) (bookmaker_whitelist : option (list string))
  : result F :=
  _arb_edge (fst (event_snapshot ev bookmaker_whitelist)).

(** The prices of a dictionary a selection can return: every one past the
    guard [not isfinite(price) or price <= 1.0]. *)
Definition snapshot_prices_ok (best : dict F) : Prop :=
  Forall (fun p => price_rejected p = false) (dict_values best).

(** What every pass maintains: the two dictionaries have the same distinct
    keys, and each entry was put there by a listing already met. *)
Definition coherent (L : list listing) (st : snapshot F) : Prop :=
  NoDup (dict_keys (fst st)) /\
  dict_keys (snd st) = dict_keys (fst st) /\
  forall o p, dict_get (fst st) o = Some p ->
    exists name, dict_get (snd st) o = Some name /\ In (name, o, p) L.

(** *** Concrete events *)

(** A bookmaker with one h2h market. *)
Definition one_book (title : string) (prices : list (string * F)) : bookmaker F :=
  {| bm_title := Some title; bm_key := None;
     bm_markets :=
       Some [ {| mkt_key := Some "h2h";
                 mkt_outcomes :=
                   Some (map (fun kv => {| out_name := Some (fst kv);
                                           out_price := PriceVal (snd kv) |})
                             prices) |} ] |}.

Definition event_of (bookmakers : list (bookmaker F)) : event F :=
  {| ev_id := Some "evt"; ev_sport_title := Some "Tennis";
     ev_commence_time := Some "2024-01-01T12:00:00Z";
     ev_home_team := Some "A"; ev_away_team := Some "B";
     ev_bookmakers := Some bookmakers |}.

(** Scenario A of the specification: 2.10 on A, 2.05 on B. *)
Definition scenario_a : event F :=
  event_of [one_book "X" [("A", of_dec 210 2)]; one_book "Y" [("B", of_dec 205 2)]].

(** Scenario D: the only price on B is 1.0; and two books tie on A. *)
Definition scenario_d : list (bookmaker F) :=
  [one_book "X" [("A", of_dec 25 1); ("B", of_dec 10 1)];
   one_book "Y" [("A", of_dec 25 1)];
   one_book "Z" [("A", of_dec 225 2)]].

(** Implied probabilities above 100%: the edge is negative. *)
Definition losing_event : event F :=
  event_of [one_book "X" [("A", of_dec 18 1); ("B", of_dec 19 1)]].

(** An edge between a quarter and a half of a percent. *)
Definition thin_event : event F :=
  event_of [one_book "X" [("A", of_dec 2 0); ("B", of_dec 2016 3)]].

(** One outcome at even odds, the other at a price of 10^17. *)
Definition lopsided_event : event F :=
  event_of [one_book "X" [("A", of_dec 2 0); ("B", of_dec (10 ^ 17) 0)]].

(** A bookmaker whose title has an upper-case letter. *)
Definition pinnacle : bookmaker F :=
  one_book "Pinnacle" [("A", of_dec 210 2); ("B", of_dec 205 2)].

End Views.

Arguments listing F : clear implicits.

(** The sum of the implied probabilities of a list of prices, and the edge
    formula of the specification, over the rationals. *)
Fixpoint implied_sum (prices : list Q) : Q :=
  match prices with
  | [] => 0
  | p :: ps => (1 / p + implied_sum ps)%Q
  end.

Definition edge_formula (prices : list Q) : Q :=
  ((1 - implied_sum prices) * 100)%Q.

(** The stakes, entry by entry. *)
Definition exact_stake (bankroll s p : Q) : Q := (bankroll * (1 / p) / s)%Q.

(** What the pass over the listings [L] has recorded for the outcome [o]:
    nothing if no listing quotes [o]; otherwise the price and bookmaker of a
    listing of [L] that every earlier listing of [o] is strictly below and
    no later one exceeds. *)
Definition first_maximum (L : list (listing float)) (st : snapshot float)
    (o : string) : Prop :=
  match dict_get (fst st) o with
  | None =>
      dict_get (snd st) o = None /\ forall name q, ~ In (name, o, q) L
  | Some p =>
      exists L1 name L2,
        L = L1 ++ (name, o, p) :: L2 /\
        dict_get (snd st) o = Some name /\
        (forall name' q, In (name', o, q) L1 -> (q <? p)%float = true) /\
        (forall name' q, In (name', o, q) L2 -> (q <=? p)%float = true)
  end.

Definition listing_not_nan (l : listing float) : Prop := F64.not_nan (snd l).

(** ** The driver: the alert message, Telegram, The Odds API, one scan *)

(** [sep.join(l)] *)
Fixpoint join (sep : string) (l : list string) : string :=
  match l with
  | [] => ""
  | x :: l' =>
      match l' with
      | [] => x
      | _ :: _ => (x ++ sep ++ join sep l')%string
      end
  end.

(** An integer in an f-string. *)
Definition string_of_Z (z : Z) : string := NilZero.string_of_int (Z.to_int z).

(** A field that is a string or [None], in an f-string. *)
Definition none_str (o : option string) : string :=
  match o with Some s => s | None => "None" end.

(** [os.getenv(name, default)] *)
Definition getenv (v : option string) (default : string) : string :=
  match v with Some s => s | None => default end.

(** An exception of the driver, by what [str(e)] gives. *)
Inductive exception : Type := Exception (text : string).

Definition exception_str (e : exception) : string :=
  match e with Exception text => text end.

(** [str(e)] of the one exception of the engine. *)
Definition exn_str (e : exn) : string :=
  match e with ZeroDivisionError => "float division by zero" end.

(** What [r.json()] gives: the decoded body, or an exception. *)
Inductive decoded (A : Type) : Type :=
| Json (a : A)
| NotJson (e : exception).
Arguments Json {A} a.
Arguments NotJson {A} e.

(** What an HTTP request comes back with: a response, with its status,
    its text and its decoded body, or an exception of the transport (no
    connection, time-out). *)
Inductive http_reply (A : Type) : Type :=
| Reply (status : Z) (text : string) (json : decoded A)
| NoReply (e : exception).
Arguments Reply {A} status text json.
Arguments NoReply {A} e.

(** [TelegramClient] and [TheOddsAPI], by the fields the requests use. *)
Record TelegramClient : Type := {
  bot_token : string;
  chat_id : string
}.

Record TheOddsAPI : Type := {
  api_key : string
}.

(** The environment variables of [main.py] that choose what is fetched. *)
Record fetch_environ : Type := {
  env_SPORTS : option string;
  env_REGIONS : option string;
  env_MARKETS : option string
}.

Definition DEFAULT_SPORTS (env : fetch_environ) : list string :=
  split_on "," (getenv (env_SPORTS env)
                       "soccer_epl,basketball_nba,icehockey_nhl,tennis_atp_singles").

Definition DEFAULT_REGIONS (env : fetch_environ) : list string :=
  split_on "," (getenv (env_REGIONS env) "eu,uk,us,au").

Definition DEFAULT_MARKETS (env : fetch_environ) : list string :=
  split_on "," (getenv (env_MARKETS env) "h2h").

Definition BASE : string := "https://api.the-odds-api.com/v4".

Section Driver.
Context {F : Type} `{PyFloat F}.

(** [str(x)] of a float, as an f-string prints it: the shortest decimal
    that reads back as [x].  The driver is written over it. *)
Variable float_str : F -> string.

(** *** [format_arb_message] *)

(** A line of the loop over [arb["best_odds"].items()]. *)
Definition outcome_line (best_books : dict string) (kv : string * F) : string :=
  let book := match dict_get best_books (fst kv) with
              | Some b => b
              | None => "?"
              end in
  ("‚Ä¢ " ++ fst kv ++ ": " ++ float_str (snd kv) ++ " (–±—É–∫–º–µ–∫–µ—Ä: " ++ book ++ ")")%string.

(** [f"{k}: ${v}"] *)
Definition stake_item (kv : string * F) : string :=
  (fst kv ++ ": $" ++ float_str (snd kv))%string.

(** The list [lines] at the end of [format_arb_message]. *)
Definition message_lines (arb : opportunity F) : list string :=
  let title := ("üéØ –ê—Ä–±–∏—Ç—Ä–∞–∂ –æ–±–Ω–∞—Ä—É–∂–µ–Ω (" ++ none_str (sport_title arb) ++ ")")%string in
  let time_str := ("‚è± " ++ none_str (commence_time arb))%string in
  let teams := ("üèü " ++ none_str (home arb) ++ " vs " ++ none_str (away arb))%string in
  let lines := [title; time_str; teams; ""] in
  let lines := lines ++ ["üìà –õ—É—á—à–∏–µ –∫–æ—ç—Ñ—Ñ–∏—Ü–∏–µ–Ω—Ç—ã:"] in
  let lines := lines ++ map (outcome_line (best_books arb)) (best_odds arb) in
  let lines := lines ++ [""] in
  let lines := lines ++ [("üí∞ –ì–∞—Ä–∞–Ω—Ç–∏—Ä–æ–≤–∞–Ω–Ω–∞—è –º–∞—Ä–∂–∞: " ++ float_str (edge_pct arb) ++ "% –Ω–∞ –±–∞–Ω–∫–µ 100$")%string] in
  let stake_lines := join " | " (map stake_item (stakes_100 arb)) in
  let lines := lines ++ [("–†–∞—Å–ø—Ä–µ–¥–µ–ª–µ–Ω–∏–µ —Å—Ç–∞–≤–æ–∫: " ++ stake_lines)%string] in
  let lines := lines ++ [""] in
  lines ++ ["‚ö†Ô∏è –í–Ω–∏–º–∞–Ω–∏–µ: –ø—Ä–æ–≤–µ—Ä—å—Ç–µ –ª–∏–º–∏—Ç—ã –∏ –ø—Ä–∞–≤–∏–ª–∞ –±—É–∫–º–µ–∫–µ—Ä–æ–≤. –ö—É—Ä—Å—ã –±—ã—Å—Ç—Ä–æ –º–µ–Ω—è—é—Ç—Å—è."].

Definition newline : string := String (ascii_of_nat 10) EmptyString.

Definition format_arb_message (arb : opportunity F) : string :=
  join newline (message_lines arb).

(** *** The network

    A run is told by its transcript, the requests made so far, each with
    what came back, oldest first.  The outside world answers a request
    knowing the transcript; nothing else is assumed of it. *)

Inductive exchange : Type :=
| Fetched (url : string) (params : list (string * string))
          (reply : http_reply (list (event F)))
| Posted (url : string) (payload : list (string * string))
         (reply : http_reply unit).

Record world : Type := {
  odds_api : list exchange -> string -> list (string * string) ->
             http_reply (list (event F));
  telegram : list exchange -> string -> list (string * string) ->
             http_reply unit
}.

Inductive outcome_of (A : Type) : Type :=
| Returned (a : A)
| Raised (e : exception).
Arguments Returned {A} a.
Arguments Raised {A} e.

(** A coroutine: from the transcript before it to its outcome and the
    transcript after it. *)
Definition io (A : Type) : Type := list exchange -> outcome_of A * list exchange.

Definition io_ret {A : Type} (a : A) : io A := fun h => (Returned a, h).

Definition io_bind {A B : Type} (c : io A) (k : A -> io B) : io B :=
  fun h => match c h with
           | (Returned a, h') => k a h'
           | (Raised e, h') => (Raised e, h')
           end.

(** [try: a = await c ... except Exception as e: ...] *)
Definition io_try {A B : Type} (c : io A) (k : A -> io B)
    (handler : exception -> io B) : io B :=
  fun h => match c h with
           | (Returned a, h') => k a h'
           | (Raised e, h') => handler e h'
           end.

Variable w : world.

(** *** [TelegramClient] *)

Definition tg_base (tg : TelegramClient) : string :=
  ("https://api.telegram.org/bot" ++ bot_token tg)%string.

Definition _post (tg : TelegramClient) (method : string)
    (payload : list (string * string)) : io unit :=
  fun h =>
    let url := (tg_base tg ++ "/" ++ method)%string in
    let reply := telegram w h url payload in
    let h' := h ++ [Posted url payload reply] in
    match reply with
    | NoReply e => (Raised e, h')
    | Reply status text json =>
        if negb (status =? 200)%Z
        then (Raised (Exception ("Telegram HTTP " ++ string_of_Z status
                                  ++ ": " ++ text)%string), h')
        else match json with
             | Json a => (Returned a, h')
             | NotJson e => (Raised e, h')
             end
    end.

Definition send (tg : TelegramClient) (text : string) : io unit :=
  _post tg "sendMessage" [("chat_id", chat_id tg); ("text", text)].

Definition log (tg : TelegramClient) (text : string) : io unit :=
  send tg text.

(** *** [TheOddsAPI.fetch_odds] *)

Definition fetch_odds (api : TheOddsAPI)
    (sport_key regions markets odds_format date_format : string)
    : io (list (event F)) :=
  fun h =>
    let params := [("apiKey", api_key api); ("regions", regions);
                   ("markets", markets); ("oddsFormat", odds_format);
                   ("dateFormat", date_format)] in
    let url := (BASE ++ "/sports/" ++ sport_key ++ "/odds")%string in
    let reply := odds_api w h url params in
    let h' := h ++ [Fetched url params reply] in
    match reply with
    | NoReply e => (Raised e, h')
    | Reply status text json =>
        if negb (status =? 200)%Z
        then (Raised (Exception ("TheOddsAPI HTTP " ++ string_of_Z status
                                  ++ ": " ++ text)%string), h')
        else match json with
             | Json data => (Returned data, h')
             | NotJson e => (Raised e, h')
             end
    end.

(** *** [scan_once] *)

(** [for arb in arbs: ...] *)
Fixpoint send_alerts (tg : TelegramClient) (arbs : list (opportunity F))
    (alerts : nat) : io nat :=
  match arbs with
  | [] => io_ret alerts
  | arb :: rest =>
      io_bind (send tg (format_arb_message arb))
              (fun _ => send_alerts tg rest (S alerts))
  end.

(** [for ev in events: ...] *)
Fixpoint scan_events (env : environ F) (tg : TelegramClient)
    (events : list (event F)) (alerts : nat) : io nat :=
  match events with
  | [] => io_ret alerts
  | ev :: rest =>
      match scan_event env ev with
      | Raise e =>
          io_bind (log tg ("⚠️ Ошибка расчёта по событию "
                           ++ match ev_id ev with Some i => i | None => "?" end
                           ++ ": " ++ exn_str e)%string)
                  (fun _ => scan_events env tg rest alerts)
      | Ok arbs =>
          io_bind (send_alerts tg arbs alerts)
                  (fun alerts' => scan_events env tg rest alerts')
      end
  end.

(** [for sport in DEFAULT_SPORTS: ...] *)
Fixpoint scan_sports (fenv : fetch_environ) (env : environ F)
    (odds : TheOddsAPI) (tg : TelegramClient)
    (sports : list string) (alerts : nat) : io nat :=
  match sports with
  | [] => io_ret alerts
  | sport :: rest =>
      io_try (fetch_odds odds sport
                         (join "," (DEFAULT_REGIONS fenv))
                         (join "," (DEFAULT_MARKETS fenv))
                         "decimal" "iso")
             (fun events =>
                io_bind (scan_events env tg events alerts)
                        (fun alerts' => scan_sports fenv env odds tg rest alerts'))
             (fun e =>
                io_bind (log tg ("⚠️ Ошибка запроса API по " ++ sport ++ ": " ++ exception_str e)%string)
                        (fun _ => scan_sports fenv env odds tg rest alerts))
  end.

Definition scan_once (fenv : fetch_environ) (env : environ F)
    (odds : TheOddsAPI) (tg : TelegramClient) : io nat :=
  scan_sports fenv env odds tg (DEFAULT_SPORTS fenv) 0.

(** *** The first scan and the loop of [main] *)

(** [try: ... except Exception as e: ...] around a whole block: what the
    block raises, wherever in it, goes to the handler. *)
Definition io_catch {A : Type} (c : io A) (handler : exception -> io A) : io A :=
  fun h => match c h with
           | (Returned a, h') => (Returned a, h')
           | (Raised e, h') => handler e h'
           end.

(** The immediate scan of [main]. *)
Definition first_scan (fenv : fetch_environ) (env : environ F)
    (odds : TheOddsAPI) (tg : TelegramClient) : io unit :=
  io_catch
    (io_bind (scan_once fenv env odds tg)
             (fun count =>
                if (count =? 0)%nat
                then log tg "ℹ️ Пока арбитраж не найден. Буду проверять дальше."
                else io_ret tt))
    (fun e => log tg ("❌ Ошибка первичного сканирования: " ++ exception_str e)%string).

(** The [try] statement of one turn of the loop of [main]. *)
Definition loop_scan (fenv : fetch_environ) (env : environ F)
    (odds : TheOddsAPI) (tg : TelegramClient) : io unit :=
  io_catch
    (io_bind (scan_once fenv env odds tg)
             (fun count =>
                if (0 <? count)%nat
                then log tg ("📣 Отправлено сигналов: " ++ string_of_Z (Z.of_nat count))%string
                else io_ret tt))
    (fun e => log tg ("❌ Ошибка в цикле: " ++ exception_str e)%string).

(** *** Reading a transcript *)

Definition is_post (x : exchange) : bool :=
  match x with Posted _ _ _ => true | Fetched _ _ _ => false end.

Definition reply_ok {A : Type} (r : http_reply A) : bool :=
  match r with
  | Reply status _ (Json _) => (status =? 200)%Z
  | _ => false
  end.

(** A request to The Odds API that did not give events. *)
Definition is_failed_fetch (x : exchange) : bool :=
  match x with
  | Fetched _ _ r => negb (reply_ok r)
  | Posted _ _ _ => false
  end.

(** A request to Telegram that did not deliver. *)
Definition is_failed_post (x : exchange) : bool :=
  match x with
  | Posted _ _ r => negb (reply_ok r)
  | Fetched _ _ _ => false
  end.

(** The events a request to The Odds API gave. *)
Definition events_of (x : exchange) : list (event F) :=
  match x with
  | Fetched _ _ (Reply status _ (Json data)) =>
      if (status =? 200)%Z then data else []
  | _ => []
  end.

(** The requests to The Odds API, each with its parameters. *)
Definition fetch_request (x : exchange) : list (string * list (string * string)) :=
  match x with
  | Fetched url params _ => [(url, params)]
  | Posted _ _ _ => []
  end.

(** Telegram delivers every message. *)
Definition telegram_delivers : Prop :=
  forall h url payload, reply_ok (telegram w h url payload) = true.

(** A stretch of transcript with requests to Telegram only. *)
Definition posts_only (new : list exchange) : Prop :=
  Forall (fun x => is_post x = true) new.

(** The request [scan_once] makes for a sport. *)
Definition request_for (fenv : fetch_environ) (odds : TheOddsAPI) (sport : string)
  : string * list (string * string) :=
  ((BASE ++ "/sports/" ++ sport ++ "/odds")%string,
   [("apiKey", api_key odds);
    ("regions", getenv (env_REGIONS fenv) "eu,uk,us,au");
    ("markets", getenv (env_MARKETS fenv) "h2h");
    ("oddsFormat", "decimal"); ("dateFormat", "iso")]).

(** The transcript of a coroutine ends with a request to Telegram that did not deliver. *)
Definition ends_in_failed_post (new : list exchange) : Prop :=
  exists pre x, new = pre ++ [x] /\ is_failed_post x = true.

Definition raises_at_failed_post {A : Type} (c : io A) : Prop :=
  forall h, exists new,
    snd (c h) = h ++ new /\
    forall e, fst (c h) = Raised e -> ends_in_failed_post new.

End Driver.

Arguments Returned {A} a.
Arguments Raised {A} e.
Arguments exchange F : clear implicits.
Arguments world F : clear implicits.
Arguments io F A : clear implicits.

(** *** The sleep of the loop of [main] *)

(** The number a double stands for; [None] for the infinities and NaN. *)
Definition float_value (x : float) : option Q :=
  match Prim2SF x with
  | S754_zero _ => Some 0%Q
  | S754_finite s m e =>
      Some ((if s then -(1) else 1) * inject_Z (Zpos m) * Qpower 2 e)%Q
  | _ => None
  end.

(** [int(x)] of a float: towards zero. *)
Definition py_int (q : Q) : Z := Z.quot (Qnum q) (Zpos (Qden q)).

(** [max(0, POLL_SECONDS - int(elapsed))]; [int] raises on the infinities
    and on NaN, which is [None] here. *)
Definition to_sleep (POLL_SECONDS : Z) (elapsed : float) : option Z :=
  match float_value elapsed with
  | Some q => Some (Z.max 0 (POLL_SECONDS - py_int q))
  | None => None
  end.

(** *** Concrete runs *)

(** How Python prints the doubles of Scenario A: its two prices, its edge
    rounded to four places and its stakes rounded to two. *)
Definition scenario_a_str (x : float) : string :=
  if feqb x (of_dec 210 2) then "2.1"
  else if feqb x (of_dec 205 2) then "2.05"
  else if feqb x (of_dec 36005 4) then "3.6005"
  else if feqb x (of_dec 494 1) then "49.4"
  else if feqb x (of_dec 506 1) then "50.6"
  else "?".

Definition no_environ : environ float :=
  {| env_MIN_EDGE_PCT := None; env_BOOKMAKER_WHITELIST := None |}.

Definition no_fetch_environ : fetch_environ :=
  {| env_SPORTS := None; env_REGIONS := None; env_MARKETS := None |}.

Definition sample_odds : TheOddsAPI := {| api_key := "key" |}.

Definition sample_tg : TelegramClient := {| bot_token := "token"; chat_id := "chat" |}.

(** The Odds API has Scenario A and a losing event for the Premier League,
    refuses basketball and does not answer for the rest. *)
Definition sample_odds_api (h : list (exchange float)) (url : string)
    (params : list (string * string)) : http_reply (list (event float)) :=
  if String.eqb url (BASE ++ "/sports/soccer_epl/odds")
  then Reply 200 "" (Json [scenario_a; losing_event])
  else if String.eqb url (BASE ++ "/sports/basketball_nba/odds")
  then Reply 429 "quota" (Json [])
  else NoReply (Exception "timeout").

(** Telegram delivers. *)
Definition steady_world : world float :=
  {| odds_api := sample_odds_api;
     telegram := fun _ _ _ => Reply 200 "" (Json tt) |}.

(** Telegram is down. *)
Definition silent_world : world float :=
  {| odds_api := sample_odds_api;
     telegram := fun _ _ _ => Reply 502 "Bad Gateway" (Json tt) |}.

(** A string that does not begin with white space. *)
Definition starts_clean (s : string) : bool :=
  match s with
  | EmptyString => true
  | String c _ => negb (is_space c)
  end.

(** ** Dictionaries: lookup after assignment *)

Section DictFacts.
Variable V : Type.
Implicit Types (d : dict V) (k : string) (v : V).

Lemma dict_get_set_same d k v : dict_get (dict_set d k v) k = Some v.
Proof.
  induction d as [|[k' v'] d IH]; simpl.
  - now rewrite String.eqb_refl.
  - destruct (String.eqb k' k) eqn:E; simpl; rewrite E; auto.
Qed.

Lemma dict_get_set_other d k k' v :
  k <> k' -> dict_get (dict_set d k v) k' = dict_get d k'.
Proof.
  intros Hne. induction d as [|[k0 v0] d IH]; simpl.
  - destruct (String.eqb_spec k k'); congruence.
  - destruct (String.eqb_spec k0 k) as [->|Hk]; simpl.
    + destruct (String.eqb_spec k k'); congruence.
    + now rewrite IH.
Qed.

Lemma dict_keys_set d k v :
  dict_keys (dict_set d k v) =
  if dict_mem d k then dict_keys d else dict_keys d ++ [k].
Proof.
  unfold dict_mem, dict_keys. induction d as [|[k' v'] d IH]; simpl; auto.
  destruct (String.eqb k' k) eqn:E; simpl; auto.
  rewrite IH. now destruct (dict_get d k).
Qed.

Lemma dict_mem_In d k : dict_mem d k = true <-> In k (dict_keys d).
Proof.
  unfold dict_mem, dict_keys. induction d as [|[k' v'] d IH]; simpl.
  - split; [discriminate | tauto].
  - destruct (String.eqb_spec k' k) as [->|Hk]; [tauto|].
    rewrite IH. split; [tauto | intros [?|?]; congruence].
Qed.

Lemma dict_keys_set_NoDup d k v :
  NoDup (dict_keys d) -> NoDup (dict_keys (dict_set d k v)).
Proof.
  intros Hd. rewrite dict_keys_set.
  destruct (dict_mem d k) eqn:E; auto.
  apply NoDup_app; auto.
  - constructor; [intros [] | constructor].
  - intros x Hx [<-|[]]. apply dict_mem_In in Hx. congruence.
Qed.

Lemma dict_get_In d k v : dict_get d k = Some v -> In (k, v) d.
Proof.
  induction d as [|[k' v'] d IH]; simpl; [discriminate|].
  destruct (String.eqb_spec k' k) as [->|Hk]; intros E.
  - left. congruence.
  - right. auto.
Qed.

Lemma In_dict_get d k v :
  NoDup (dict_keys d) -> In (k, v) d -> dict_get d k = Some v.
Proof.
  induction d as [|[k' v'] d IH]; simpl; [tauto|].
  intros Hnd [E|Hin]; inversion Hnd; subst.
  - inversion E; subst. now rewrite String.eqb_refl.
  - destruct (String.eqb_spec k' k) as [->|Hk]; auto.
    exfalso. apply H1. change k with (fst (k, v)). now apply in_map.
Qed.

Lemma dict_values_set_In d k v x :
  In x (dict_values (dict_set d k v)) -> x = v \/ In x (dict_values d).
Proof.
  unfold dict_values. induction d as [|[k' v'] d IH]; simpl.
  - intros [E|[]]; auto.
  - destruct (String.eqb k' k); simpl; intuition auto.
Qed.

End DictFacts.

(** ** Comprehensions that do not raise *)

Lemma mapM_total {A B : Type} (f : A -> result B) (g : A -> B) (l : list A) :
  (forall a, In a l -> f a = Ok (g a)) -> mapM f l = Ok (map g l).
Proof.
  induction l as [|a l IH]; intros Hf; simpl; auto.
  rewrite (Hf a) by now left. simpl.
  rewrite IH by (intros; apply Hf; now right). reflexivity.
Qed.

(** ** The selection as one pass over the qualifying listings *)

Section SelectionFacts.
Context {F : Type} `{PyFloat F}.

Lemma fold_left_flat_map {A B S : Type} (f : S -> B -> S) (g : A -> list B)
    (l : list A) (a : S) :
  fold_left f (flat_map g l) a = fold_left (fun s x => fold_left f (g x) s) l a.
Proof.
  revert a. induction l as [|x l IH]; intros a; simpl; auto.
  now rewrite fold_left_app, IH.
Qed.

Lemma fold_left_ext {A S : Type} (f g : S -> A -> S) (l : list A) (a : S) :
  (forall s x, f s x = g s x) -> fold_left f l a = fold_left g l a.
Proof.
  intros E. revert a. induction l as [|x l IH]; intros a; simpl; auto.
  now rewrite E, IH.
Qed.

Lemma visit_outcome_listings name st (out : outcome F) :
  visit_outcome name st out = fold_left record_listing (outcome_listings name out) st.
Proof.
  unfold visit_outcome, outcome_listings.
  destruct (out_name out) as [o|]; [|reflexivity].
  destruct (out_price out) as [| |p]; try reflexivity.
  now destruct (price_rejected p).
Qed.

Lemma visit_market_listings name st (m : market F) :
  visit_market name st m = fold_left record_listing (market_listings name m) st.
Proof.
  unfold visit_market, market_listings.
  destruct (is_h2h (mkt_key m)); simpl; [|reflexivity].
  rewrite fold_left_flat_map. apply fold_left_ext.
  intros; apply visit_outcome_listings.
Qed.

Lemma visit_bookmaker_listings wl st (bm : bookmaker F) :
  visit_bookmaker wl st bm = fold_left record_listing (bookmaker_listings wl bm) st.
Proof.
  unfold visit_bookmaker, bookmaker_listings.
  destruct (whitelist_skips wl (bm_name bm)); simpl; [reflexivity|].
  rewrite fold_left_flat_map. apply fold_left_ext.
  intros; apply visit_market_listings.
Qed.

Lemma best_odds_listings (bms : list (bookmaker F)) wl :
  _best_odds_by_outcome bms wl = fold_left record_listing (listings bms wl) ([], []).
Proof.
  unfold _best_odds_by_outcome, listings.
  rewrite fold_left_flat_map. apply fold_left_ext.
  intros; apply visit_bookmaker_listings.
Qed.

(** Where a qualifying listing comes from in the event. *)
Lemma listing_origin (bms : list (bookmaker F)) wl name o p :
  In (name, o, p) (listings bms wl) ->
  exists bm m out,
    In bm bms /\ bookmaker_allowed wl bm = true /\ name = bm_name bm /\
    In m (get_list (bm_markets bm)) /\ mkt_key m = Some "h2h" /\
    In out (get_list (mkt_outcomes m)) /\
    out_name out = Some o /\ out_price out = PriceVal p /\
    price_rejected p = false.
Proof.
  unfold listings. rewrite in_flat_map. intros (bm & Hbm & Hin).
  unfold bookmaker_listings in Hin.
  destruct (whitelist_skips wl (bm_name bm)) eqn:Hskip; [destruct Hin|].
  rewrite in_flat_map in Hin. destruct Hin as (m & Hm & Hin).
  unfold market_listings in Hin.
  destruct (is_h2h (mkt_key m)) eqn:Hkey; [|destruct Hin].
  rewrite in_flat_map in Hin. destruct Hin as (out & Hout & Hin).
  unfold outcome_listings in Hin.
  destruct (out_name out) as [o'|] eqn:Hn; [|destruct Hin].
  destruct (out_price out) as [| |p'] eqn:Hp; try destruct Hin.
  destruct (price_rejected p') eqn:Hrej; [destruct Hin|].
  destruct Hin as [E|[]]. inversion E; subst.
  exists bm, m, out. unfold bookmaker_allowed. rewrite Hskip.
  repeat split; auto.
  unfold is_h2h in Hkey. destruct (mkt_key m) as [k|]; [|discriminate].
  apply String.eqb_eq in Hkey. now subst.
Qed.

Lemma listings_app (b1 b2 : list (bookmaker F)) wl :
  listings (b1 ++ b2) wl = listings b1 wl ++ listings b2 wl.
Proof. unfold listings. apply flat_map_app. Qed.

Lemma coherent_nil : coherent (F:=F) [] ([], []).
Proof.
  repeat split; simpl; try constructor. intros o p E; discriminate.
Qed.

Lemma dict_mem_same_keys {A B : Type} (d : dict A) (e : dict B) k :
  dict_keys e = dict_keys d -> dict_mem e k = dict_mem d k.
Proof.
  intros E. destruct (dict_mem d k) eqn:Hd.
  - apply dict_mem_In. rewrite E. now apply dict_mem_In.
  - destruct (dict_mem e k) eqn:He; auto.
    apply dict_mem_In in He. rewrite E in He. apply dict_mem_In in He. congruence.
Qed.

Lemma coherent_update (L : list (listing F)) (st : snapshot F) name o p :
  coherent L st ->
  coherent (L ++ [(name, o, p)])
           (dict_set (fst st) o p, dict_set (snd st) o name).
Proof.
  intros (Hnd & Hk & He). repeat split; simpl.
  - now apply dict_keys_set_NoDup.
  - rewrite !dict_keys_set, Hk, (dict_mem_same_keys _ _ _ Hk). reflexivity.
  - intros o' p' E. destruct (String.eqb_spec o o') as [<-|Hne].
    + rewrite dict_get_set_same in E. inversion E; subst.
      exists name. rewrite dict_get_set_same. split; auto.
      apply in_or_app. right. now left.
    + rewrite dict_get_set_other in E by auto.
      destruct (He _ _ E) as (n & Hn & Hin).
      exists n. rewrite dict_get_set_other by auto. split; auto.
      apply in_or_app. now left.
Qed.

Lemma coherent_weaken (L : list (listing F)) x (st : snapshot F) :
  coherent L st -> coherent (L ++ [x]) st.
Proof.
  intros (Hnd & Hk & He). repeat split; auto.
  intros o p E. destruct (He _ _ E) as (n & Hn & Hin).
  exists n. split; auto. apply in_or_app. now left.
Qed.

Lemma coherent_record (L : list (listing F)) (st : snapshot F) l :
  coherent L st -> coherent (L ++ [l]) (record_listing st l).
Proof.
  destruct l as [[name o] p]. destruct st as [best source].
  intros Hc. unfold record_listing, record_price. simpl.
  destruct (dict_get best o) as [b|].
  - destruct (fltb b p).
    + apply (coherent_update name o p Hc).
    + now apply coherent_weaken.
  - apply (coherent_update name o p Hc).
Qed.

Lemma coherent_fold (L : list (listing F)) :
  coherent L (fold_left record_listing L ([], [])).
Proof.
  induction L as [|l L IH] using rev_ind.
  - apply coherent_nil.
  - rewrite fold_left_app. simpl. now apply coherent_record.
Qed.

Lemma best_odds_coherent (bms : list (bookmaker F)) wl :
  coherent (listings bms wl) (_best_odds_by_outcome bms wl).
Proof. rewrite best_odds_listings. apply coherent_fold. Qed.

(** Every entry of a snapshot is the parsed price of an outcome entry of an
    allowed bookmaker's h2h market, and passed the guard on prices. *)
Lemma snapshot_entry_origin (bms : list (bookmaker F)) wl o p :
  In (o, p) (fst (_best_odds_by_outcome bms wl)) ->
  price_rejected p = false /\
  exists bm m out,
    In bm bms /\ bookmaker_allowed wl bm = true /\
    In m (get_list (bm_markets bm)) /\ mkt_key m = Some "h2h" /\
    In out (get_list (mkt_outcomes m)) /\
    out_name out = Some o /\ out_price out = PriceVal p.
Proof.
  intros Hin. destruct (best_odds_coherent bms wl) as (Hnd & _ & He).
  apply In_dict_get in Hin; auto.
  destruct (He _ _ Hin) as (name & _ & HL).
  destruct (listing_origin _ _ _ _ _ HL)
    as (bm & m & out & H1 & H2 & _ & H3 & H4 & H5 & H6 & H7 & H8).
  split; auto. exists bm, m, out. auto 10.
Qed.

Lemma best_odds_prices_ok (bms : list (bookmaker F)) wl :
  snapshot_prices_ok (fst (_best_odds_by_outcome bms wl)).
Proof.
  unfold snapshot_prices_ok, dict_values. apply Forall_forall. intros p Hp.
  apply in_map_iff in Hp. destruct Hp as ([o p'] & <- & Hin).
  now apply snapshot_entry_origin in Hin.
Qed.

Lemma best_odds_NoDup (bms : list (bookmaker F)) wl :
  NoDup (dict_keys (fst (_best_odds_by_outcome bms wl))).
Proof. apply best_odds_coherent. Qed.

Lemma record_listing_keeps_keys (st : snapshot F) l o :
  dict_mem (fst st) o = true -> dict_mem (fst (record_listing st l)) o = true.
Proof.
  destruct l as [[name o'] p]. destruct st as [best source].
  unfold record_listing, record_price. cbn [fst snd]. intros Hm.
  assert (Hset : dict_mem (dict_set best o' p) o = true).
  { apply dict_mem_In. rewrite dict_keys_set.
    destruct (dict_mem best o'); [now apply dict_mem_In|].
    apply in_or_app. left. now apply dict_mem_In. }
  destruct (dict_get best o') as [b|]; [destruct (fltb b p)|]; cbn [fst]; auto.
Qed.

Lemma record_listing_adds_key (st : snapshot F) name o p :
  dict_mem (fst (record_listing st (name, o, p))) o = true.
Proof.
  destruct st as [best source]. unfold record_listing, record_price. cbn [fst snd].
  assert (Hset : dict_mem (dict_set best o p) o = true).
  { unfold dict_mem. now rewrite dict_get_set_same. }
  destruct (dict_get best o) as [b|] eqn:Hb; [destruct (fltb b p)|]; cbn [fst]; auto.
  unfold dict_mem. now rewrite Hb.
Qed.

Lemma listed_outcomes_are_keys (L : list (listing F)) name o p :
  In (name, o, p) L ->
  dict_mem (fst (fold_left record_listing L ([], []))) o = true.
Proof.
  induction L as [|l L IH] using rev_ind; [intros []|].
  intros Hin. rewrite fold_left_app. cbn [fold_left].
  apply in_app_or in Hin. destruct Hin as [Hin|[->|[]]].
  - apply record_listing_keeps_keys. auto.
  - apply record_listing_adds_key.
Qed.

(** The keys of a snapshot are the outcome labels of the qualifying
    listings, each once. *)
Lemma snapshot_keys_listed (bms : list (bookmaker F)) wl :
  NoDup (dict_keys (fst (_best_odds_by_outcome bms wl))) /\
  forall o, In o (dict_keys (fst (_best_odds_by_outcome bms wl))) <->
            exists name p, In (name, o, p) (listings bms wl).
Proof.
  split; [apply best_odds_NoDup|]. intros o. split.
  - intros Hin. apply dict_mem_In in Hin. unfold dict_mem in Hin.
    destruct (dict_get (fst (_best_odds_by_outcome bms wl)) o) as [p|] eqn:E;
      [|discriminate].
    destruct (best_odds_coherent bms wl) as (_ & _ & He).
    destruct (He _ _ E) as (name & _ & HL). eauto.
  - intros (name & p & HL). apply dict_mem_In.
    rewrite best_odds_listings. eapply listed_outcomes_are_keys; eauto.
Qed.

End SelectionFacts.

(** ** The order of binary64: comparison through keys *)

Module F64Order.

Import F64.
Local Open Scope Z_scope.

Lemma lex3_Lt a b : lex3 a b = Lt <-> klt a b.
Proof.
  destruct a as [[a1 a2] a3], b as [[b1 b2] b3]. unfold lex3, klt.
  destruct (Z.compare_spec a1 b1); destruct (Z.compare_spec a2 b2);
    destruct (Z.compare_spec a3 b3); split; intros; try discriminate;
    try reflexivity; lia.
Qed.

Lemma lex3_Eq a b : lex3 a b = Eq <-> a = b.
Proof.
  destruct a as [[a1 a2] a3], b as [[b1 b2] b3]. unfold lex3.
  destruct (Z.compare_spec a1 b1); destruct (Z.compare_spec a2 b2);
    destruct (Z.compare_spec a3 b3); split; intros E; try discriminate;
    try reflexivity; try (inversion E; lia); subst; reflexivity.
Qed.

Lemma lex3_Gt a b : lex3 a b = Gt <-> klt b a.
Proof.
  destruct a as [[a1 a2] a3], b as [[b1 b2] b3]. unfold lex3, klt.
  destruct (Z.compare_spec a1 b1); destruct (Z.compare_spec a2 b2);
    destruct (Z.compare_spec a3 b3); split; intros; try discriminate;
    try reflexivity; lia.
Qed.

Lemma SFcompare_key a b :
  a <> S754_nan -> b <> S754_nan -> SFcompare a b = Some (lex3 (sf_key a) (sf_key b)).
Proof.
  intros Ha Hb.
  destruct a as [sa|sa| |sa ma ea]; try congruence;
    destruct b as [sb|sb| |sb mb eb]; try congruence;
    try destruct sa; try destruct sb; try reflexivity.
  cbn -[Z.compare Z.opp]. rewrite Z.compare_opp, (Z.compare_antisym ea eb).
  destruct (ea ?= eb); reflexivity.
Qed.

Lemma SFcompare_nan_l b : SFcompare S754_nan b = None.
Proof. reflexivity. Qed.

Lemma SFcompare_nan_r a : SFcompare a S754_nan = None.
Proof. now destruct a. Qed.

Lemma not_nan_spec x : not_nan x <-> Prim2SF x <> S754_nan.
Proof.
  unfold not_nan, is_nan. rewrite eqb_spec. unfold SFeqb. split.
  - intros E Hn. rewrite Hn in E. discriminate.
  - intros Hn. rewrite SFcompare_key by auto.
    now rewrite (proj2 (lex3_Eq _ _) eq_refl).
Qed.

Lemma ltb_key x y :
  (x <? y)%float = true <-> not_nan x /\ not_nan y /\ klt (fkey x) (fkey y).
Proof.
  rewrite ltb_spec, !not_nan_spec. unfold SFltb, fkey.
  destruct (Prim2SF x) eqn:Ex; try (rewrite SFcompare_nan_l; intuition congruence);
    destruct (Prim2SF y) eqn:Ey; try (rewrite SFcompare_nan_r; intuition congruence);
    (rewrite SFcompare_key by congruence; rewrite <- lex3_Lt;
     match goal with |- context [lex3 ?a ?b] => destruct (lex3 a b) end;
     intuition congruence).
Qed.

Lemma leb_key x y :
  (x <=? y)%float = true <-> not_nan x /\ not_nan y /\ kle (fkey x) (fkey y).
Proof.
  rewrite leb_spec, !not_nan_spec. unfold SFleb, fkey, kle.
  destruct (Prim2SF x) eqn:Ex; try (rewrite SFcompare_nan_l; intuition congruence);
    destruct (Prim2SF y) eqn:Ey; try (rewrite SFcompare_nan_r; intuition congruence);
    (rewrite SFcompare_key by congruence; rewrite <- lex3_Lt, <- lex3_Eq;
     match goal with |- context [lex3 ?a ?b] => destruct (lex3 a b) end;
     intuition congruence).
Qed.

Lemma eqb_key x y :
  (x =? y)%float = true <-> not_nan x /\ not_nan y /\ fkey x = fkey y.
Proof.
  rewrite eqb_spec, !not_nan_spec. unfold SFeqb, fkey.
  destruct (Prim2SF x) eqn:Ex; try (rewrite SFcompare_nan_l; intuition congruence);
    destruct (Prim2SF y) eqn:Ey; try (rewrite SFcompare_nan_r; intuition congruence);
    (rewrite SFcompare_key by congruence; rewrite <- lex3_Eq;
     match goal with |- context [lex3 ?a ?b] => destruct (lex3 a b) end;
     intuition congruence).
Qed.

Lemma klt_trans a b c : klt a b -> klt b c -> klt a c.
Proof.
  destruct a as [[a1 a2] a3], b as [[b1 b2] b3], c as [[c1 c2] c3].
  unfold klt. lia.
Qed.

Lemma klt_total a b : klt a b \/ a = b \/ klt b a.
Proof.
  destruct a as [[a1 a2] a3], b as [[b1 b2] b3]. unfold klt.
  destruct (Z.lt_total a1 b1) as [?|[?|?]]; [lia| |lia].
  destruct (Z.lt_total a2 b2) as [?|[?|?]]; [lia| |lia].
  destruct (Z.lt_total a3 b3) as [?|[?|?]]; [lia| |lia].
  right; left. now subst.
Qed.

Lemma klt_irrefl a : ~ klt a a.
Proof. destruct a as [[a1 a2] a3]. unfold klt. lia. Qed.

Lemma finite_not_nan x : is_finite x = true -> not_nan x.
Proof.
  unfold is_finite, not_nan. destruct (is_nan x); [discriminate | reflexivity].
Qed.

(** The order facts the selection and the threshold test rest on. *)

Lemma ltb_leb x y : (x <? y)%float = true -> (x <=? y)%float = true.
Proof.
  rewrite ltb_key, leb_key. unfold kle. tauto.
Qed.

Lemma eqb_leb x y : (x =? y)%float = true -> (x <=? y)%float = true.
Proof.
  rewrite eqb_key, leb_key. unfold kle. tauto.
Qed.

Lemma leb_refl x : not_nan x -> (x <=? x)%float = true.
Proof.
  rewrite leb_key. unfold kle. tauto.
Qed.

Lemma ltb_trans x y z :
  (x <? y)%float = true -> (y <? z)%float = true -> (x <? z)%float = true.
Proof.
  rewrite !ltb_key. intros (? & ? & ?) (? & ? & ?).
  repeat split; auto. eapply klt_trans; eauto.
Qed.

Lemma leb_ltb_trans x y z :
  (x <=? y)%float = true -> (y <? z)%float = true -> (x <? z)%float = true.
Proof.
  rewrite leb_key, !ltb_key. intros (? & ? & [?|E]) (? & ? & ?);
    repeat split; auto.
  - eapply klt_trans; eauto.
  - now rewrite E.
Qed.

Lemma leb_trans x y z :
  (x <=? y)%float = true -> (y <=? z)%float = true -> (x <=? z)%float = true.
Proof.
  rewrite !leb_key. unfold kle. intros (? & ? & [?|E]) (? & ? & [?|E']);
    repeat split; auto.
  - left. eapply klt_trans; eauto.
  - left. now rewrite <- E'.
  - left. now rewrite E.
  - right. congruence.
Qed.

Lemma ltb_false_leb x y :
  not_nan x -> not_nan y -> (x <? y)%float = false -> (y <=? x)%float = true.
Proof.
  intros Hx Hy Hlt. apply leb_key. repeat split; auto.
  destruct (klt_total (fkey x) (fkey y)) as [Hk|[Hk|Hk]].
  - assert ((x <? y)%float = true) by (apply ltb_key; auto). congruence.
  - right. auto.
  - left. auto.
Qed.

Lemma leb_false_ltb x y :
  not_nan x -> not_nan y -> (x <=? y)%float = false -> (y <? x)%float = true.
Proof.
  intros Hx Hy Hle. apply ltb_key. repeat split; auto.
  destruct (klt_total (fkey x) (fkey y)) as [Hk|[Hk|Hk]]; auto.
  - assert ((x <=? y)%float = true) by (apply leb_key; unfold kle; auto). congruence.
  - assert ((x <=? y)%float = true) by (apply leb_key; unfold kle; auto). congruence.
Qed.

Lemma ltb_leb_false x y : (x <? y)%float = true -> (y <=? x)%float = false.
Proof.
  rewrite ltb_key. intros (Hx & Hy & Hk).
  destruct (y <=? x)%float eqn:E; auto.
  apply leb_key in E. destruct E as (_ & _ & [Hk'|Hk']).
  - exfalso. eapply klt_irrefl, klt_trans; eauto.
  - rewrite Hk' in Hk. exfalso. eapply klt_irrefl; eauto.
Qed.

End F64Order.

(** ** Rounding keeps a positive result positive

    A sum of doubles that are not negative, one of them positive, is
    positive, and so is [1.0 / p] for a finite [p] above one: a result is
    rounded to zero only below half the smallest subnormal, and these are
    not.  Read off the specification of the operations. *)

Module F64Round.

Import F64.
Local Open Scope Z_scope.

Lemma digits2_pos_bounds p :
  2 ^ (Zpos (digits2_pos p) - 1) <= Zpos p < 2 ^ Zpos (digits2_pos p).
Proof.
  induction p as [p IH|p IH|]; cbn [digits2_pos].
  - rewrite Pos2Z.inj_succ.
    replace (Z.succ (Zpos (digits2_pos p)) - 1) with (Z.succ (Zpos (digits2_pos p) - 1)) by lia.
    rewrite !Z.pow_succ_r by lia. lia.
  - rewrite Pos2Z.inj_succ.
    replace (Z.succ (Zpos (digits2_pos p)) - 1) with (Z.succ (Zpos (digits2_pos p) - 1)) by lia.
    rewrite !Z.pow_succ_r by lia. lia.
  - simpl. lia.
Qed.

Lemma shr_1_m mrs : 0 <= shr_m mrs -> shr_m (shr_1 mrs) = shr_m mrs / 2.
Proof.
  destruct mrs as [m r s]. cbn [shr_m]. intros Hm.
  destruct m as [|p|p]; [reflexivity| |lia].
  destruct p as [p|p|]; cbn [shr_1 shr_m].
  - rewrite Pos2Z.inj_xI. apply Z.div_unique with 1; lia.
  - rewrite Pos2Z.inj_xO. apply Z.div_unique with 0; lia.
  - reflexivity.
Qed.

Lemma iter_shr_m p : forall mrs,
  0 <= shr_m mrs -> shr_m (iter_pos shr_1 p mrs) = shr_m mrs / 2 ^ Zpos p.
Proof.
  induction p as [p IH|p IH|]; intros mrs Hm; cbn [iter_pos].
  - assert (Hp : 0 < 2 ^ Zpos p) by (apply Z.pow_pos_nonneg; lia).
    assert (H1 : 0 <= shr_m (shr_1 mrs)).
    { rewrite shr_1_m by auto. apply Z.div_pos; lia. }
    assert (H2 : 0 <= shr_m (iter_pos shr_1 p (shr_1 mrs))).
    { rewrite IH by auto. apply Z.div_pos; auto. }
    rewrite IH, IH, shr_1_m by auto.
    rewrite !Z.div_div by lia.
    f_equal. rewrite (Pos2Z.inj_xI p), Z.pow_add_r, Z.pow_twice_r by lia.
    change (2 ^ 1) with 2. ring.
  - assert (Hp : 0 < 2 ^ Zpos p) by (apply Z.pow_pos_nonneg; lia).
    assert (H2 : 0 <= shr_m (iter_pos shr_1 p mrs)).
    { rewrite IH by auto. apply Z.div_pos; auto. }
    rewrite IH, IH by auto.
    rewrite !Z.div_div by lia.
    f_equal. rewrite (Pos2Z.inj_xO p), Z.pow_twice_r. reflexivity.
  - rewrite shr_1_m by auto. reflexivity.
Qed.

Lemma shr_record_of_loc_m m l : shr_m (shr_record_of_loc m l) = m.
Proof. destruct l as [|[]]; reflexivity. Qed.

Lemma fexp_ge_emin x : emin <= fexp prec emax x.
Proof. unfold fexp. lia. Qed.

Lemma shr_fexp_pos m e l :
  1 <= m -> emin <= e ->
  1 <= shr_m (fst (shr_fexp prec emax m e l)) /\ emin <= snd (shr_fexp prec emax m e l).
Proof.
  intros Hm He. unfold shr_fexp, shr.
  destruct m as [|p|p]; try lia. cbn [Zdigits2].
  pose proof (digits2_pos_bounds p) as [Hlo Hhi].
  set (d := Zpos (digits2_pos p)) in *.
  destruct (fexp prec emax (d + e) - e) as [|n|n] eqn:En; cbn [fst snd];
    rewrite ?shr_record_of_loc_m; try lia.
  rewrite iter_shr_m by (rewrite shr_record_of_loc_m; lia).
  rewrite shr_record_of_loc_m. split.
  - assert (Hn : Zpos n <= d - 1).
    { unfold fexp, SpecFloat.emin in En. change prec with 53 in *. change emax with 1024 in *.
      unfold SpecFloat.emin in He. lia. }
    apply Z.div_le_lower_bound; [apply Z.pow_pos_nonneg; lia|].
    rewrite Z.mul_1_r. eapply Z.le_trans; [|exact Hlo].
    apply Z.pow_le_mono_r; lia.
  - rewrite <- En. pose proof (fexp_ge_emin (d + e)). lia.
Qed.

Lemma round_nearest_even_ge m l : m <= round_nearest_even m l.
Proof.
  destruct l as [|[]]; cbn; try lia. destruct (Z.even m); lia.
Qed.

Lemma binary_round_aux_pos m e l :
  1 <= m -> emin <= e -> positive_sf (binary_round_aux prec emax false m e l) = true.
Proof.
  intros Hm He. unfold binary_round_aux.
  pose proof (shr_fexp_pos l Hm He) as [H1 H2].
  destruct (shr_fexp prec emax m e l) as [mrs' e']. cbn [fst snd] in *.
  pose proof (round_nearest_even_ge (shr_m mrs') (loc_of_shr_record mrs')) as Hr.
  assert (Hm' : 1 <= round_nearest_even (shr_m mrs') (loc_of_shr_record mrs')) by lia.
  pose proof (shr_fexp_pos loc_Exact Hm' H2) as [H3 H4].
  destruct (shr_fexp prec emax _ e' loc_Exact) as [mrs'' e'']. cbn [fst snd] in *.
  destruct (shr_m mrs'') as [|q|q]; try lia.
  destruct (e'' <=? emax - prec); reflexivity.
Qed.

Lemma binary_round_pos m e :
  emin <= e -> positive_sf (binary_round prec emax false m e) = true.
Proof.
  intros He. unfold binary_round, shl_align.
  pose proof (fexp_ge_emin (Zpos (digits2_pos m) + e)) as Hf.
  destruct (fexp prec emax (Zpos (digits2_pos m) + e) - e) eqn:En;
    apply binary_round_aux_pos; lia.
Qed.

Lemma valid_emin s m e :
  valid_binary (S754_finite s m e) = true ->
  emin <= e <= emax - prec /\ Zpos (digits2_pos m) <= prec.
Proof.
  cbn [SpecFloat.valid_binary]. unfold bounded, canonical_mantissa.
  rewrite andb_true_iff, Z.eqb_eq, Z.leb_le. intros [Hc Hb].
  unfold fexp, SpecFloat.emin in *. change prec with 53 in *. change emax with 1024 in *.
  lia.
Qed.

Lemma shl_align_fst_pos m e e' : 1 <= Zpos (fst (shl_align m e e')).
Proof. lia. Qed.

Lemma SFadd_pos x y :
  valid_binary x = true -> valid_binary y = true ->
  nonneg_sf x = true -> positive_sf y = true ->
  positive_sf (SFadd prec emax x y) = true.
Proof.
  intros Vx Vy Hx Hy.
  destruct y as [sy|sy| |sy my ey]; try discriminate; destruct sy; try discriminate;
    destruct x as [sx|sx| |sx mx ex]; try discriminate; try destruct sx; try discriminate;
    try reflexivity.
  cbn [SFadd cond_Zopp].
  apply valid_emin in Vx, Vy.
  match goal with |- context [binary_normalize _ _ (?a + ?b) _ _] =>
    destruct (a + b) as [|q|q] eqn:Eq; try lia end.
  cbn [binary_normalize]. apply binary_round_pos. lia.
Qed.

Lemma SFdiv_one_pos m e :
  valid_binary (S754_finite false m e) = true ->
  positive_sf (SFdiv prec emax (S754_finite false 4503599627370496 (-52))
                               (S754_finite false m e)) = true.
Proof.
  intros V. apply valid_emin in V. destruct V as [[He1 He2] Hd].
  change prec with 53 in *. change emax with 1024 in *. unfold SpecFloat.emin in He1.
  cbn [SFdiv xorb]. unfold SFdiv_core_binary.
  change (Zdigits2 4503599627370496) with 53. cbn [Zdigits2].
  pose proof (digits2_pos_bounds m) as [Hlo Hhi].
  set (d := Zpos (digits2_pos m)) in *.
  set (e' := Z.min (fexp 53 1024 (53 + -52 - (d + e))) (-52 - e)).
  assert (He' : -1074 <= e').
  { unfold e', fexp, SpecFloat.emin. lia. }
  assert (Hs : 1 <= -52 - e - e' /\ d <= 52 + (-52 - e - e')).
  { unfold e', fexp, SpecFloat.emin. lia. }
  destruct (-52 - e - e') as [|s|s] eqn:Es; try lia.
  assert (Hm' : Zpos m <= Z.shiftl 4503599627370496 (Zpos s)).
  { rewrite Z.shiftl_mul_pow2 by lia. change 4503599627370496 with (2 ^ 52).
    rewrite <- Z.pow_add_r by lia.
    apply Z.lt_le_incl. eapply Z.lt_le_trans; [exact Hhi|].
    apply Z.pow_le_mono_r; lia. }
  destruct (Z.div_eucl (Z.shiftl 4503599627370496 (Zpos s)) (Zpos m)) as [q r] eqn:Ed.
  assert (Hq : q = Z.shiftl 4503599627370496 (Zpos s) / Zpos m).
  { unfold Z.div. now rewrite Ed. }
  apply binary_round_aux_pos.
  - rewrite Hq. apply Z.div_le_lower_bound; lia.
  - unfold SpecFloat.emin. change prec with 53. change emax with 1024. lia.
Qed.

Lemma Prim2SF_one : Prim2SF 1 = S754_finite false 4503599627370496 (-52).
Proof. reflexivity. Qed.

Lemma Prim2SF_zero : Prim2SF 0 = S754_zero false.
Proof. reflexivity. Qed.

Lemma positive_sf_ltb x : positive_sf (Prim2SF x) = true -> (0 <? x)%float = true.
Proof.
  intros Hp. apply F64Order.ltb_key. split; [|split].
  - reflexivity.
  - apply F64Order.not_nan_spec. intros E. rewrite E in Hp. discriminate.
  - unfold F64.fkey. rewrite Prim2SF_zero.
    destruct (Prim2SF x) as [s|s| |s m e]; try discriminate; destruct s; try discriminate;
      cbn; lia.
Qed.

Lemma leb_nonneg_sf x : (0 <=? x)%float = true -> nonneg_sf (Prim2SF x) = true.
Proof.
  intros Hle. apply F64Order.leb_key in Hle. destruct Hle as (_ & Hn & Hk).
  apply F64Order.not_nan_spec in Hn. unfold F64.fkey in Hk. rewrite Prim2SF_zero in Hk.
  destruct (Prim2SF x) as [s|s| |s m e]; try congruence; destruct s; try reflexivity;
    exfalso; destruct Hk as [Hk|Hk]; cbn in Hk; try lia; discriminate.
Qed.

Lemma ltb_positive_sf x : (0 <? x)%float = true -> positive_sf (Prim2SF x) = true.
Proof.
  intros Hlt. apply F64Order.ltb_key in Hlt. destruct Hlt as (_ & Hn & Hk).
  apply F64Order.not_nan_spec in Hn. unfold F64.fkey in Hk. rewrite Prim2SF_zero in Hk.
  destruct (Prim2SF x) as [s|s| |s m e]; try congruence; destruct s; try reflexivity;
    exfalso; cbn in Hk; lia.
Qed.

Lemma add_pos (a b : float) :
  (0 <=? a)%float = true -> (0 <? b)%float = true -> (0 <? a + b)%float = true.
Proof.
  intros Ha Hb. apply positive_sf_ltb. rewrite add_spec.
  apply SFadd_pos; try apply Prim2SF_valid.
  - now apply leb_nonneg_sf.
  - now apply ltb_positive_sf.
Qed.

Lemma finite_not_infinity x s : is_finite x = true -> Prim2SF x <> S754_infinity s.
Proof.
  unfold is_finite, is_infinity. rewrite negb_true_iff, orb_false_iff.
  intros [_ Hi] E. rewrite eqb_spec, abs_spec, E in Hi. discriminate.
Qed.

Lemma div_one_pos (p : float) :
  is_finite p = true -> (p <=? 1)%float = false -> (0 <? 1 / p)%float = true.
Proof.
  intros Hf Hle. apply positive_sf_ltb. rewrite div_spec, Prim2SF_one.
  assert (Hlt : (1 <? p)%float = true).
  { apply F64Order.leb_false_ltb; auto.
    - now apply F64Order.finite_not_nan.
    - reflexivity. }
  apply F64Order.ltb_key in Hlt. destruct Hlt as (_ & Hn & Hk).
  apply F64Order.not_nan_spec in Hn. unfold F64.fkey in Hk. rewrite Prim2SF_one in Hk.
  pose proof (Prim2SF_valid p) as V.
  destruct (Prim2SF p) as [s|s| |s m e] eqn:Ep; try congruence.
  - exfalso. cbn in Hk. lia.
  - exfalso. eapply finite_not_infinity; eauto.
  - destruct s; [exfalso; cbn in Hk; lia|].
    now apply SFdiv_one_pos.
Qed.

Lemma pos_nonzero x : (0 <? x)%float = true -> (x =? 0)%float = false.
Proof.
  intros Hlt. destruct (x =? 0)%float eqn:E; auto.
  apply F64Order.eqb_leb in E. apply F64Order.ltb_leb_false in Hlt. congruence.
Qed.

Lemma fold_add_pos (xs : list float) (a : float) :
  Forall (fun x => (0 <? x)%float = true) xs -> (0 <? a)%float = true ->
  (0 <? fold_left PrimFloat.add xs a)%float = true.
Proof.
  revert a. induction xs as [|x xs IH]; intros a Hall Ha; simpl; auto.
  inversion Hall; subst. apply IH; auto.
  apply add_pos; auto. now apply F64Order.ltb_leb.
Qed.

Lemma py_sum_pos (xs : list float) :
  Forall (fun x => (0 <? x)%float = true) xs -> xs <> [] ->
  (0 <? py_sum xs)%float = true.
Proof.
  intros Hall Hne. destruct xs as [|x xs]; [congruence|].
  unfold py_sum. cbn [fold_left fadd binary64]. inversion Hall; subst.
  apply fold_add_pos; auto. apply add_pos; auto.
Qed.

End F64Round.

(** ** Best-price selection on binary64 *)

Section Selection64.

Local Open Scope float_scope.

Lemma f0_binary64 : @f0 float _ = 0.
Proof. reflexivity. Qed.

Lemma f1_binary64 : @f1 float _ = 1.
Proof. reflexivity. Qed.

Lemma f100_binary64 : @f100 float _ = 100.
Proof. reflexivity. Qed.

Lemma price_accepted64 (p : float) :
  price_rejected p = false <-> is_finite p = true /\ (p <=? 1) = false.
Proof.
  unfold price_rejected. rewrite f1_binary64. cbn [isfinite fleb binary64].
  destruct (is_finite p), (p <=? 1); simpl; intuition congruence.
Qed.

Lemma accepted_price_nonzero64 (p : float) :
  price_rejected p = false -> (p =? 0) = false.
Proof.
  intros Hok. apply price_accepted64 in Hok. destruct Hok as [_ Hle].
  destruct (p =? 0) eqn:E; auto.
  apply F64Order.eqb_leb in E.
  assert (H01 : (0 <=? 1) = true) by reflexivity.
  pose proof (@F64Order.leb_trans p 0 1 E H01). congruence.
Qed.

(** On doubles no division of [_arb_edge] raises on accepted prices, and
    the result is the expression of the source, the implied probabilities
    added in the order of the dictionary. *)
Lemma arb_edge_binary64 (best : dict float) :
  snapshot_prices_ok best ->
  _arb_edge best =
  Ok ((1 - py_sum (map (fun p => 1 / p) (dict_values best))) * 100).
Proof.
  intros Hok. unfold _arb_edge.
  rewrite (mapM_total _ (fun o : float => 1 / o)).
  - reflexivity.
  - intros p Hp. unfold py_div. rewrite f0_binary64, f1_binary64.
    cbn [feqb fdiv binary64].
    unfold snapshot_prices_ok in Hok. rewrite Forall_forall in Hok.
    now rewrite (accepted_price_nonzero64 _ (Hok p Hp)).
Qed.

Lemma inverse_prices_positive64 (best : dict float) :
  snapshot_prices_ok best ->
  Forall (fun x => (0 <? x) = true) (map (fun p => 1 / p) (dict_values best)).
Proof.
  unfold snapshot_prices_ok. rewrite !Forall_forall. intros Hok x Hx.
  apply in_map_iff in Hx. destruct Hx as (p & <- & Hp).
  destruct (proj1 (price_accepted64 p) (Hok p Hp)) as [Hf Hle].
  now apply F64Round.div_one_pos.
Qed.

(** On doubles no division of [_stakes_for_edge] raises either: the sum of
    the inverse prices is above zero. *)
Lemma stakes_for_edge_binary64 (best : dict float) (bankroll : float) :
  snapshot_prices_ok best ->
  _stakes_for_edge best bankroll =
  Ok (map (fun kv => (fst kv,
                      bankroll * (1 / snd kv) /
                      py_sum (map (fun p => 1 / p) (dict_values best)))) best).
Proof.
  intros Hok. assert (Hall := Hok).
  unfold snapshot_prices_ok in Hall. rewrite Forall_forall in Hall.
  unfold _stakes_for_edge.
  rewrite (mapM_total _ (fun kv : string * float => (fst kv, 1 / snd kv))).
  2:{ intros [k p] Hin. cbn [fst snd]. unfold py_div.
      rewrite f0_binary64, f1_binary64. cbn [feqb fdiv binary64].
      rewrite accepted_price_nonzero64; [reflexivity|].
      apply Hall. unfold dict_values. change p with (snd (k, p)). now apply in_map. }
  cbn [bind].
  assert (Hvals : dict_values (map (fun kv : string * float => (fst kv, 1 / snd kv)) best)
                  = map (fun p => 1 / p) (dict_values best)).
  { unfold dict_values. rewrite !map_map. reflexivity. }
  rewrite Hvals.
  set (s := py_sum (map (fun p => 1 / p) (dict_values best))).
  rewrite mapM_total
    with (g := fun kv : string * float => (fst kv, bankroll * snd kv / s)).
  - rewrite map_map. reflexivity.
  - intros [k x] Hin. cbn [fst snd]. unfold py_div.
    rewrite f0_binary64. cbn [feqb fdiv fmul binary64].
    rewrite F64Round.pos_nonzero; [reflexivity|].
    apply F64Round.py_sum_pos.
    + now apply inverse_prices_positive64.
    + destruct best; [destruct Hin | discriminate].
Qed.

(** C5: a price that is not finite, does not parse, or is at most 1.0 never
    appears in the Best-Price Snapshot.  Every entry of the snapshot is the
    parsed price of an outcome entry of the event, is finite and is not
    [<= 1.0]; in particular it is never the price 1.0 itself. *)
Theorem best_odds_excludes_invalid_prices
    (bms : list (bookmaker float)) (wl : list string) (o : string) (p : float) :
  In (o, p) (fst (_best_odds_by_outcome bms wl)) ->
  is_finite p = true /\ (p <=? 1) = false /\ (p =? 1) = false /\
  exists bm m out,
    In bm bms /\ In m (get_list (bm_markets bm)) /\
    In out (get_list (mkt_outcomes m)) /\
    out_name out = Some o /\ out_price out = PriceVal p.
Proof.
  intros Hin. apply snapshot_entry_origin in Hin.
  destruct Hin as (Hok & bm & m & out & H1 & _ & H2 & _ & H3 & H4 & H5).
  apply price_accepted64 in Hok. destruct Hok as (Hfin & Hle).
  repeat split; auto.
  - destruct (p =? 1) eqn:E; auto.
    apply F64Order.eqb_leb in E. congruence.
  - exists bm, m, out. auto.
Qed.

End Selection64.

(** ** The allow-list *)

Section Whitelist.
Context {F : Type} `{PyFloat F}.

Lemma str_in_In x s : str_in x s = true <-> In x s.
Proof.
  unfold str_in. rewrite existsb_exists. split.
  - intros (y & Hy & E). apply String.eqb_eq in E. now subst.
  - intros Hin. exists x. split; auto. apply String.eqb_refl.
Qed.

Lemma bookmaker_allowed_iff wl (bm : bookmaker F) :
  bookmaker_allowed wl bm = true <-> wl = [] \/ In (lower (bm_identifier bm)) wl.
Proof.
  unfold bookmaker_allowed, whitelist_skips, bm_name, bm_identifier.
  rewrite negb_true_iff, andb_false_iff, negb_false_iff, str_in_In.
  destruct wl; simpl; intuition congruence.
Qed.

Lemma visit_bookmaker_nil st (bm : bookmaker F) :
  visit_bookmaker [] st bm =
  fold_left (visit_market (bm_name bm)) (get_list (bm_markets bm)) st.
Proof. reflexivity. Qed.

Lemma best_odds_filter_fold wl (bms : list (bookmaker F)) st :
  fold_left (visit_bookmaker wl) bms st =
  fold_left (visit_bookmaker []) (filter (bookmaker_allowed wl) bms) st.
Proof.
  revert st. induction bms as [|bm bms IH]; intros st; simpl; auto.
  unfold bookmaker_allowed at 1. unfold visit_bookmaker at 2.
  destruct (whitelist_skips wl (bm_name bm)); simpl; auto.
Qed.

Lemma lower_ascii_idem c : lower_ascii (lower_ascii c) = lower_ascii c.
Proof.
  destruct c as [[] [] [] [] [] [] [] []]; reflexivity.
Qed.

Lemma lower_idem s : lower (lower s) = lower s.
Proof.
  induction s as [|c s IH]; simpl; auto.
  now rewrite lower_ascii_idem, IH.
Qed.

Lemma whitelist_entries_lower (env : environ F) e :
  In e (BOOKMAKER_WHITELIST env) -> lower e = e.
Proof.
  unfold BOOKMAKER_WHITELIST. rewrite in_map_iff.
  intros (b & <- & _). apply lower_idem.
Qed.

Lemma ci_member_lowered x s :
  (forall e, In e s -> lower e = e) ->
  ci_member x s = str_in (lower x) s.
Proof.
  intros Hs. unfold ci_member, str_in.
  induction s as [|e s IH]; simpl; auto.
  rewrite IH by (intros; apply Hs; now right).
  rewrite (Hs e) by now left.
  now rewrite (String.eqb_sym e).
Qed.

(** C7, as the code has it: the selection under an allow-list is the
    selection, with no allow-list, over the bookmakers the list lets through;
    a bookmaker is let through exactly when the list is empty or holds its
    lower-cased identifier as an entry, compared as it stands; and with the
    allow-list the driver builds from the configuration, whose entries are
    lower-cased when read, that is membership regardless of case. *)
Theorem whitelist_selects_lowercased_members
    (bms : list (bookmaker F)) (wl : list string) :
  _best_odds_by_outcome bms wl =
    _best_odds_by_outcome (filter (bookmaker_allowed wl) bms) [] /\
  (forall bm : bookmaker F,
     bookmaker_allowed wl bm = true <->
     wl = [] \/ In (lower (bm_identifier bm)) wl) /\
  (forall (env : environ F) (bm : bookmaker F),
     bookmaker_allowed (BOOKMAKER_WHITELIST env) bm = true <->
     BOOKMAKER_WHITELIST env = [] \/
     ci_member (bm_identifier bm) (BOOKMAKER_WHITELIST env) = true).
Proof.
  split; [|split].
  - unfold _best_odds_by_outcome. apply best_odds_filter_fold.
  - apply bookmaker_allowed_iff.
  - intros env bm. rewrite bookmaker_allowed_iff.
    rewrite (ci_member_lowered _ _ (whitelist_entries_lower env)).
    now rewrite str_in_In.
Qed.

(** ** Zero or one opportunity *)

Lemma find_arbs_at_most_one (ev : event F) t wl l :
  find_arbs_for_event ev t wl = Ok l -> (List.length l <= 1)%nat.
Proof.
  unfold find_arbs_for_event.
  destruct (get_list (ev_bookmakers ev)) as [|bm bms].
  - intros E; inversion E; simpl; lia.
  - destruct (_best_odds_by_outcome (bm :: bms) (get_list wl)) as [best source].
    destruct (negb (outcome_count_ok best)).
    + intros E; inversion E; simpl; lia.
    + destruct (_arb_edge best) as [edge|e]; simpl; [|discriminate].
      destruct (fleb edge _).
      * intros E; inversion E; simpl; lia.
      * destruct (_stakes_for_edge best f100) as [stakes|e]; simpl; [|discriminate].
        intros E; inversion E; simpl; lia.
Qed.

Lemma find_arbs_skips_other_counts (ev : event F) t wl :
  dict_len (fst (event_snapshot ev wl)) <> 2%nat ->
  dict_len (fst (event_snapshot ev wl)) <> 3%nat ->
  find_arbs_for_event ev t wl = Ok [].
Proof.
  unfold event_snapshot, find_arbs_for_event. intros H2 H3.
  destruct (get_list (ev_bookmakers ev)) as [|bm bms]; auto.
  destruct (_best_odds_by_outcome (bm :: bms) (get_list wl)) as [best source].
  simpl in H2, H3. unfold outcome_count_ok.
  destruct (Nat.eqb_spec (dict_len best) 2); [contradiction|].
  destruct (Nat.eqb_spec (dict_len best) 3); [contradiction|].
  reflexivity.
Qed.

End Whitelist.

(** ** The engine in exact arithmetic *)

Section ExactFacts.

Local Open Scope Q_scope.

Lemma f0_exact : @f0 Q _ = 0.
Proof. reflexivity. Qed.

Lemma f1_exact : @f1 Q _ = 1.
Proof. reflexivity. Qed.

Lemma f100_exact : @f100 Q _ = 100.
Proof. reflexivity. Qed.

Lemma price_accepted_exact (p : Q) : price_rejected p = false <-> 1 < p.
Proof.
  unfold price_rejected. rewrite f1_exact. cbn [isfinite fleb exact negb orb].
  split.
  - intros E. apply Qnot_le_lt. intros Hle.
    apply Qle_bool_iff in Hle. congruence.
  - intros Hlt. destruct (Qle_bool p 1) eqn:E; auto.
    apply Qle_bool_iff in E. exfalso. lra.
Qed.

Lemma py_div_exact (x y : Q) : ~ y == 0 -> py_div x y = Ok (x / y).
Proof.
  intros Hy. unfold py_div. rewrite f0_exact. cbn [feqb fdiv exact].
  destruct (Qeq_bool y 0) eqn:E; auto.
  apply Qeq_bool_iff in E. contradiction.
Qed.

Lemma fold_left_Qplus (xs : list Q) (a : Q) :
  fold_left Qplus xs a == a + fold_right Qplus 0 xs.
Proof.
  revert a. induction xs as [|x xs IH]; intros a; simpl.
  - ring.
  - rewrite IH. ring.
Qed.

Lemma py_sum_exact (xs : list Q) : py_sum xs == fold_right Qplus 0 xs.
Proof.
  unfold py_sum. rewrite f0_exact. cbn [fadd exact].
  rewrite fold_left_Qplus. ring.
Qed.

Lemma implied_sum_fold (ps : list Q) :
  implied_sum ps = fold_right Qplus 0 (map (fun p => 1 / p) ps).
Proof.
  induction ps as [|p ps IH]; simpl; auto. now rewrite IH.
Qed.

Lemma implied_sum_app (l1 l2 : list Q) :
  implied_sum (l1 ++ l2) == implied_sum l1 + implied_sum l2.
Proof.
  induction l1 as [|p l1 IH]; simpl.
  - ring.
  - rewrite IH. ring.
Qed.

Lemma inv_pos (p : Q) : 1 < p -> 0 < 1 / p.
Proof.
  intros Hp. unfold Qdiv. rewrite Qmult_1_l.
  apply Qinv_lt_0_compat. lra.
Qed.

Lemma implied_sum_nonneg (ps : list Q) :
  Forall (fun p => 1 < p) ps -> 0 <= implied_sum ps.
Proof.
  induction 1 as [|p ps Hp _ IH]; simpl.
  - lra.
  - pose proof (inv_pos Hp). lra.
Qed.

Lemma implied_sum_pos (ps : list Q) :
  Forall (fun p => 1 < p) ps -> ps <> [] -> 0 < implied_sum ps.
Proof.
  intros Hall Hne. destruct Hall as [|p ps Hp Hps]; [congruence|].
  simpl. pose proof (inv_pos Hp). pose proof (implied_sum_nonneg Hps). lra.
Qed.

Lemma prices_ok_exact (best : dict Q) :
  snapshot_prices_ok best <-> Forall (fun p => 1 < p) (dict_values best).
Proof.
  unfold snapshot_prices_ok. rewrite !Forall_forall.
  split; intros Hall p Hp; apply price_accepted_exact; auto.
Qed.

(** No division of [_arb_edge] raises on accepted prices, and its result is
    the edge formula. *)
Lemma arb_edge_exact (best : dict Q) :
  snapshot_prices_ok best ->
  exists e, _arb_edge best = Ok e /\ e == edge_formula (dict_values best).
Proof.
  intros Hok. apply prices_ok_exact in Hok.
  unfold _arb_edge.
  rewrite (mapM_total _ (fun o => 1 / o)).
  - cbn [bind]. eexists. split; [reflexivity|].
    rewrite f1_exact, f100_exact. cbn [fmul fsub exact].
    unfold edge_formula. rewrite py_sum_exact, implied_sum_fold. reflexivity.
  - intros p Hp. rewrite f1_exact. apply py_div_exact.
    rewrite Forall_forall in Hok. specialize (Hok p Hp). lra.
Qed.

Lemma stakes_for_edge_exact (best : dict Q) (bankroll : Q) :
  snapshot_prices_ok best ->
  _stakes_for_edge best bankroll =
  Ok (map (fun kv => (fst kv, exact_stake bankroll
                                 (py_sum (map (fun p => 1 / p) (dict_values best)))
                                 (snd kv))) best).
Proof.
  intros Hok. apply prices_ok_exact in Hok.
  assert (Hall := Hok). rewrite Forall_forall in Hall.
  unfold _stakes_for_edge.
  rewrite (mapM_total _ (fun kv => (fst kv, 1 / snd kv))).
  2:{ intros [k p] Hin. cbn [fst snd]. rewrite f1_exact, py_div_exact; auto.
      assert (1 < p) by (apply Hall; unfold dict_values;
                         change p with (snd (k, p)); now apply in_map).
      lra. }
  cbn [bind].
  assert (Hvals : dict_values (map (fun kv : string * Q => (fst kv, 1 / snd kv)) best)
                  = map (fun p => 1 / p) (dict_values best)).
  { unfold dict_values. rewrite !map_map. reflexivity. }
  rewrite Hvals.
  set (s := py_sum (map (fun p => 1 / p) (dict_values best))).
  rewrite mapM_total with (g := fun kv : string * Q => (fst kv, bankroll * snd kv / s)).
  - rewrite map_map. reflexivity.
  - intros [k x] Hin. cbn [fst snd fmul exact].
    rewrite py_div_exact; auto.
    assert (0 < s).
    { unfold s. rewrite py_sum_exact, <- implied_sum_fold.
      apply implied_sum_pos; auto.
      destruct best; [destruct Hin | discriminate]. }
    lra.
Qed.

Lemma dict_get_map_values {A B : Type} (g : A -> B) (d : dict A) k :
  dict_get (map (fun kv => (fst kv, g (snd kv))) d) k = option_map g (dict_get d k).
Proof.
  induction d as [|[k' v] d IH]; simpl; auto.
  destruct (String.eqb k' k); auto.
Qed.

Lemma dict_keys_map_values {A B : Type} (g : A -> B) (d : dict A) :
  dict_keys (map (fun kv => (fst kv, g (snd kv))) d) = dict_keys d.
Proof.
  unfold dict_keys. rewrite map_map. reflexivity.
Qed.

Lemma snapshot_inv_sum_pos (best : dict Q) :
  snapshot_prices_ok best -> best <> [] ->
  0 < py_sum (map (fun p => 1 / p) (dict_values best)).
Proof.
  intros Hok Hne. rewrite py_sum_exact, <- implied_sum_fold.
  apply implied_sum_pos.
  - now apply prices_ok_exact.
  - unfold dict_values. destruct best; [congruence | discriminate].
Qed.

Lemma stakes_sum_exact (bankroll s : Q) (ps : list Q) :
  fold_right Qplus 0 (map (exact_stake bankroll s) ps) ==
  bankroll * implied_sum ps / s.
Proof.
  induction ps as [|p ps IH]; simpl.
  - unfold Qdiv. ring.
  - rewrite IH. unfold exact_stake, Qdiv. ring.
Qed.

End ExactFacts.

Section ExactTheorems.

Local Open Scope Q_scope.


Lemma dict_len_nonempty {A : Type} (d : dict A) :
  (dict_len d = 2 \/ dict_len d = 3)%nat -> d <> [].
Proof.
  intros [E|E] ->; discriminate.
Qed.

Lemma equal_payout (bankroll s p : Q) :
  0 < s -> 1 < p -> exact_stake bankroll s p * p == bankroll / s.
Proof.
  intros Hs Hp. unfold exact_stake. field. split; lra.
Qed.

(** The stake allocation over a dictionary of accepted prices that is not
    empty: the same payout whichever outcome wins, and stakes that add up
    to the bankroll. *)
Lemma stakes_equalise (best : dict Q) (bankroll : Q) :
  snapshot_prices_ok best -> best <> [] ->
  exists stakes,
    _stakes_for_edge best bankroll = Ok stakes /\
    dict_keys stakes = dict_keys best /\
    (forall o1 o2 s1 s2 p1 p2,
       dict_get stakes o1 = Some s1 -> dict_get best o1 = Some p1 ->
       dict_get stakes o2 = Some s2 -> dict_get best o2 = Some p2 ->
       s1 * p1 == s2 * p2) /\
    py_sum (dict_values stakes) == bankroll.
Proof.
  intros Hok Hne.
  pose proof (snapshot_inv_sum_pos Hok Hne) as Hs.
  assert (Hall : forall o p, dict_get best o = Some p -> 1 < p).
  { intros o p E. apply dict_get_In in E.
    apply prices_ok_exact in Hok. rewrite Forall_forall in Hok.
    apply Hok. unfold dict_values. change p with (snd (o, p)). now apply in_map. }
  eexists. split; [apply stakes_for_edge_exact; auto|].
  set (s := py_sum (map (fun p => 1 / p) (dict_values best))) in *.
  split; [|split].
  - apply dict_keys_map_values.
  - intros o1 o2 s1 s2 p1 p2 E1 B1 E2 B2.
    rewrite dict_get_map_values, B1 in E1. rewrite dict_get_map_values, B2 in E2.
    simpl in E1, E2. inversion E1; inversion E2; subst s1 s2.
    rewrite !equal_payout; eauto. reflexivity.
  - unfold dict_values at 1. rewrite map_map. cbn [snd].
    rewrite py_sum_exact.
    change (fun x : string * Q => exact_stake bankroll s (snd x))
      with (fun x : string * Q => (exact_stake bankroll s) (snd x)).
    rewrite <- (map_map snd (exact_stake bankroll s)).
    rewrite stakes_sum_exact.
    assert (Hs' : s == implied_sum (map snd best)).
    { unfold s. rewrite py_sum_exact, <- implied_sum_fold. reflexivity. }
    rewrite <- Hs'. field. lra.
Qed.


Lemma inv_antitone (p p' : Q) : 1 < p -> p <= p' -> 1 / p' <= 1 / p.
Proof.
  intros Hp Hle.
  apply Qle_shift_div_r; [lra|].
  assert (E : 1 / p * p' == p' / p) by (field; lra).
  rewrite E. apply Qle_shift_div_l; lra.
Qed.

Lemma dict_values_app {A : Type} (l1 l2 : dict A) :
  dict_values (l1 ++ l2) = dict_values l1 ++ dict_values l2.
Proof. unfold dict_values. apply map_app. Qed.


Lemma inv_below_sum (ps : list Q) (p : Q) :
  Forall (fun q => 1 < q) ps -> (2 <= List.length ps)%nat -> In p ps ->
  1 / p < implied_sum ps.
Proof.
  intros Hall Hlen Hin.
  destruct (in_split _ _ Hin) as (l1 & l2 & ->).
  rewrite implied_sum_app. simpl.
  apply Forall_app in Hall. destruct Hall as [H1 H2].
  inversion H2 as [|? ? Hp H2']; subst.
  pose proof (implied_sum_nonneg H1). pose proof (implied_sum_nonneg H2').
  rewrite length_app in Hlen. simpl in Hlen.
  destruct l1 as [|q l1].
  - destruct l2 as [|q l2]; [simpl in Hlen; lia|].
    assert (0 < implied_sum (q :: l2)) by (apply implied_sum_pos; [auto|discriminate]).
    simpl in *. lra.
  - assert (0 < implied_sum (q :: l1)) by (apply implied_sum_pos; [auto|discriminate]).
    simpl in *. lra.
Qed.

Lemma stake_inside (s p : Q) :
  0 < 1 / p -> 1 / p < s ->
  0 < exact_stake 100 s p /\ exact_stake 100 s p < 100.
Proof.
  intros Hp Hs. unfold exact_stake. split.
  - apply Qlt_shift_div_l; lra.
  - apply Qlt_shift_div_r; lra.
Qed.

(** The stakes of a snapshot of at least two accepted prices lie strictly
    between zero and the bankroll of 100. *)
Lemma stakes_inside (best : dict Q) :
  snapshot_prices_ok best -> (2 <= dict_len best)%nat ->
  exists stakes,
    _stakes_for_edge best f100 = Ok stakes /\
    dict_keys stakes = dict_keys best /\
    forall o s, In (o, s) stakes -> 0 < s /\ s < 100.
Proof.
  intros Hok Hlen.
  eexists. split; [apply stakes_for_edge_exact; auto|].
  split; [apply dict_keys_map_values|].
  intros o s Hin. apply in_map_iff in Hin.
  destruct Hin as ([k p] & E & Hin). cbn [fst snd] in E.
  rewrite f100_exact in E. inversion E; subst.
  assert (Hp : In p (dict_values best)).
  { unfold dict_values. change p with (snd (o, p)). now apply in_map. }
  apply prices_ok_exact in Hok.
  apply stake_inside.
  - apply inv_pos. rewrite Forall_forall in Hok. auto.
  - rewrite py_sum_exact, <- implied_sum_fold.
    apply inv_below_sum; auto.
    unfold dict_values. rewrite length_map. exact Hlen.
Qed.

(** What [find_arbs_for_event] has checked when it returns an opportunity. *)
Lemma find_arbs_opportunity {F : Type} `{PyFloat F} (ev : event F) t wl opp l :
  find_arbs_for_event ev t wl = Ok (opp :: l) ->
  l = [] /\
  best_odds opp = fst (event_snapshot ev wl) /\
  best_books opp = snd (event_snapshot ev wl) /\
  outcome_count_ok (best_odds opp) = true /\
  exists edge stakes,
    _arb_edge (best_odds opp) = Ok edge /\
    fleb edge (match t with Some x => x | None => default_min_edge_pct end) = false /\
    edge_pct opp = py_round edge 4 /\
    _stakes_for_edge (best_odds opp) f100 = Ok stakes /\
    stakes_100 opp = map (fun kv => (fst kv, py_round (snd kv) 2)) stakes.
Proof.
  unfold find_arbs_for_event, event_snapshot.
  destruct (get_list (ev_bookmakers ev)) as [|bm bms]; [discriminate|].
  destruct (_best_odds_by_outcome (bm :: bms) (get_list wl)) as [best source].
  destruct (outcome_count_ok best) eqn:Hc; cbn [negb]; [|discriminate].
  destruct (_arb_edge best) as [edge|e] eqn:He; cbn [bind]; [|discriminate].
  destruct (fleb edge _) eqn:Ht; [discriminate|].
  destruct (_stakes_for_edge best f100) as [stakes|e] eqn:Hs; cbn [bind];
    [|discriminate].
  intros E. inversion E; subst; clear E. cbn.
  repeat split; auto. exists edge, stakes. auto.
Qed.

(** C10, in exact arithmetic: whenever the engine produces an opportunity,
    every unrounded stake of its allocation is strictly positive and
    strictly less than the bankroll of 100. *)
Theorem stakes_strictly_inside_bankroll
    (ev : event Q) (t : option Q) (wl : option (list string)) (opp : opportunity Q) :
  find_arbs_for_event ev t wl = Ok [opp] ->
  exists stakes,
    _stakes_for_edge (best_odds opp) f100 = Ok stakes /\
    stakes_100 opp = map (fun kv => (fst kv, py_round (snd kv) 2)) stakes /\
    dict_keys stakes = dict_keys (best_odds opp) /\
    forall o s, In (o, s) stakes -> 0 < s /\ s < 100.
Proof.
  intros Hfind. apply find_arbs_opportunity in Hfind.
  destruct Hfind as (_ & Hb & _ & Hc & edge & stakes & _ & _ & _ & Hs & Hr).
  assert (Hok : snapshot_prices_ok (best_odds opp)).
  { rewrite Hb. apply best_odds_prices_ok. }
  assert (Hlen : (2 <= dict_len (best_odds opp))%nat).
  { unfold outcome_count_ok in Hc. apply orb_true_iff in Hc.
    destruct Hc as [Hc|Hc]; apply Nat.eqb_eq in Hc; lia. }
  destruct (stakes_inside Hok Hlen) as (stakes' & Hs' & Hk & Hin).
  exists stakes'. rewrite Hs in Hs'. inversion Hs'; subst. auto.
Qed.

End ExactTheorems.

(** ** First maximum wins, on binary64 *)

Section FirstMaximum.

Local Open Scope float_scope.

Lemma first_maximum_nil o : first_maximum [] ([], []) o.
Proof.
  unfold first_maximum. simpl. split; auto.
Qed.

Lemma first_maximum_other L st name o' price o :
  o' <> o ->
  first_maximum L st o ->
  first_maximum (L ++ [(name, o', price)]) (record_listing st (name, o', price)) o.
Proof.
  intros Hne Hm. destruct st as [best source].
  assert (Hget : dict_get (fst (record_listing (best, source) (name, o', price))) o
                 = dict_get best o /\
                 dict_get (snd (record_listing (best, source) (name, o', price))) o
                 = dict_get source o).
  { unfold record_listing, record_price. cbn [fst snd].
    destruct (dict_get best o') as [b|]; [destruct (fltb b price)|]; cbn [fst snd];
      rewrite ?dict_get_set_other by auto; auto. }
  destruct Hget as [Hb Hs]. unfold first_maximum in *. rewrite Hb, Hs.
  cbn [fst snd] in Hm.
  destruct (dict_get best o) as [p|].
  - destruct Hm as (L1 & n & L2 & -> & Hsrc & H1 & H2).
    exists L1, n, (L2 ++ [(name, o', price)]).
    rewrite <- app_assoc. repeat split; auto.
    intros n' q Hin. apply in_app_or in Hin. destruct Hin as [Hin|[E|[]]]; eauto.
    inversion E; congruence.
  - destruct Hm as [Hsrc Hno]. split; auto.
    intros n q Hin. apply in_app_or in Hin. destruct Hin as [Hin|[E|[]]].
    + eapply Hno; eauto.
    + inversion E; congruence.
Qed.

Lemma first_maximum_same L st name o price :
  Forall listing_not_nan L -> F64.not_nan price ->
  first_maximum L st o ->
  first_maximum (L ++ [(name, o, price)]) (record_listing st (name, o, price)) o.
Proof.
  intros Hnn Hp Hm. destruct st as [best source].
  unfold first_maximum in *. unfold record_listing, record_price.
  cbn [fst snd] in *.
  destruct (dict_get best o) as [b|] eqn:Hb.
  - destruct Hm as (L1 & n & L2 & -> & Hsrc & H1 & H2).
    assert (Hbn : F64.not_nan b).
    { rewrite Forall_forall in Hnn.
      apply (Hnn (n, o, b)). apply in_or_app. right. now left. }
    cbn [fltb binary64]. destruct (b <? price) eqn:Hlt; cbn [fst snd].
    + rewrite !dict_get_set_same.
      exists (L1 ++ (n, o, b) :: L2), name, [].
      split; [reflexivity|]. split; [reflexivity|]. split; [|intros n' q []].
      intros n' q Hin. apply in_app_or in Hin.
      destruct Hin as [Hin|[E|Hin]].
      * eapply F64Order.ltb_trans; eauto.
      * inversion E; subst. exact Hlt.
      * eapply F64Order.leb_ltb_trans; eauto.
    + rewrite Hb. exists L1, n, (L2 ++ [(name, o, price)]).
      rewrite <- app_assoc. repeat split; auto.
      intros n' q Hin. apply in_app_or in Hin. destruct Hin as [Hin|[E|[]]]; eauto.
      inversion E; subst. now apply F64Order.ltb_false_leb.
  - destruct Hm as [Hsrc Hno]. cbn [fst snd]. rewrite !dict_get_set_same.
    exists L, name, [].
    split; [reflexivity|]. split; [reflexivity|]. split; [|intros n' q []].
    intros n' q Hin. exfalso. eapply Hno; eauto.
Qed.

Lemma first_maximum_fold L o :
  Forall listing_not_nan L ->
  first_maximum L (fold_left record_listing L ([], [])) o.
Proof.
  induction L as [|[[name o'] price] L IH] using rev_ind; intros Hnn.
  - apply first_maximum_nil.
  - apply Forall_app in Hnn. destruct Hnn as [HL Hx].
    rewrite fold_left_app. cbn [fold_left].
    destruct (String.eqb_spec o' o) as [->|Hne].
    + apply first_maximum_same; auto. now inversion Hx.
    + apply first_maximum_other; auto.
Qed.

Lemma listings_not_nan (bms : list (bookmaker float)) wl :
  Forall listing_not_nan (listings bms wl).
Proof.
  apply Forall_forall. intros [[name o] p] Hin.
  apply listing_origin in Hin.
  destruct Hin as (_ & _ & _ & _ & _ & _ & _ & _ & _ & _ & _ & Hok).
  apply price_accepted64 in Hok. apply F64Order.finite_not_nan. tauto.
Qed.

(** C3: per outcome label the selection records the maximum qualifying
    price and the bookmaker that offered it, and of several bookmakers
    quoting that maximum the one met first is kept: the recorded listing is
    strictly above every qualifying listing of the outcome before it and at
    least equal to every one after it. *)
Theorem best_odds_keeps_first_maximum
    (bms : list (bookmaker float)) (wl : list string) (o : string) :
  match dict_get (fst (_best_odds_by_outcome bms wl)) o with
  | None =>
      dict_get (snd (_best_odds_by_outcome bms wl)) o = None /\
      forall name q, ~ In (name, o, q) (listings bms wl)
  | Some p =>
      exists L1 name L2,
        listings bms wl = L1 ++ (name, o, p) :: L2 /\
        dict_get (snd (_best_odds_by_outcome bms wl)) o = Some name /\
        (forall name' q, In (name', o, q) L1 -> (q <? p) = true) /\
        (forall name' q, In (name', o, q) L2 -> (q <=? p) = true)
  end.
Proof.
  rewrite best_odds_listings.
  apply (first_maximum_fold o (listings_not_nan bms wl)).
Qed.

End FirstMaximum.

(** ** The threshold test *)

Section Threshold.
Context {F : Type} `{PyFloat F}.

(** An event whose unrounded edge is [<=] the threshold yields nothing. *)
Lemma find_arbs_below_threshold (ev : event F) (t e : F) wl :
  event_edge ev wl = Ok e -> fleb e t = true ->
  find_arbs_for_event ev (Some t) wl = Ok [].
Proof.
  unfold event_edge, event_snapshot, find_arbs_for_event. intros He Hle.
  destruct (get_list (ev_bookmakers ev)) as [|bm bms]; auto.
  destruct (_best_odds_by_outcome (bm :: bms) (get_list wl)) as [best source].
  cbn [fst] in He. destruct (negb (outcome_count_ok best)); auto.
  rewrite He. cbn [bind]. now rewrite Hle.
Qed.

(** An opportunity comes with an unrounded edge that failed the test
    [edge <= min_edge_pct]. *)
Lemma find_arbs_above_threshold (ev : event F) (t : F) wl opp l :
  find_arbs_for_event ev (Some t) wl = Ok (opp :: l) ->
  exists e, event_edge ev wl = Ok e /\ fleb e t = false.
Proof.
  intros Hfind. apply find_arbs_opportunity in Hfind.
  destruct Hfind as (_ & Hb & _ & _ & edge & stakes & He & Ht & _).
  exists edge. unfold event_edge. rewrite <- Hb. auto.
Qed.

End Threshold.

Section Threshold64.

Local Open Scope float_scope.

(** C4, as the code has it: an opportunity is produced only when the
    unrounded edge fails the test [edge <= threshold], which for an edge
    and a threshold that are numbers means the edge is strictly greater; an
    edge equal to the threshold produces none; and an edge [<= 0] produces
    none when the threshold is at least zero. *)
Theorem opportunity_needs_edge_above_threshold
    (ev : event float) (t : float) (wl : option (list string)) :
  (forall opp l,
     find_arbs_for_event ev (Some t) wl = Ok (opp :: l) ->
     exists e, event_edge ev wl = Ok e /\ (e <=? t) = false /\
               (is_nan e = false -> is_nan t = false -> (t <? e) = true)) /\
  (forall e, event_edge ev wl = Ok e -> (e =? t) = true ->
     find_arbs_for_event ev (Some t) wl = Ok []) /\
  (forall e, event_edge ev wl = Ok e -> (0 <=? t) = true -> (e <=? 0) = true ->
     find_arbs_for_event ev (Some t) wl = Ok []).
Proof.
  split; [|split].
  - intros opp l Hfind. apply find_arbs_above_threshold in Hfind.
    destruct Hfind as (e & He & Hle). exists e. repeat split; auto.
    intros Hne Hnt. now apply F64Order.leb_false_ltb.
  - intros e He Heq. apply find_arbs_below_threshold with (e := e); auto.
    now apply F64Order.eqb_leb.
  - intros e He Ht Hle. apply find_arbs_below_threshold with (e := e); auto.
    eapply F64Order.leb_trans; eauto.
Qed.


End Threshold64.

(** ** Zero or one opportunity, and no exception *)

Lemma find_arbs_total_exact (ev : event Q) t wl :
  exists l, find_arbs_for_event ev t wl = Ok l.
Proof.
  unfold find_arbs_for_event.
  destruct (get_list (ev_bookmakers ev)) as [|bm bms]; [eauto|].
  pose proof (best_odds_prices_ok (bm :: bms) (get_list wl)) as Hok.
  destruct (_best_odds_by_outcome (bm :: bms) (get_list wl)) as [best source].
  cbn [fst] in Hok.
  destruct (negb (outcome_count_ok best)); [eauto|].
  destruct (arb_edge_exact Hok) as (e & -> & _). cbn [bind].
  destruct (fleb e _); [eauto|].
  rewrite (stakes_for_edge_exact _ Hok). cbn [bind]. eauto.
Qed.

Lemma find_arbs_total_binary64 (ev : event float) t wl :
  exists l, find_arbs_for_event ev t wl = Ok l.
Proof.
  unfold find_arbs_for_event.
  destruct (get_list (ev_bookmakers ev)) as [|bm bms]; [eauto|].
  pose proof (best_odds_prices_ok (bm :: bms) (get_list wl)) as Hok.
  destruct (_best_odds_by_outcome (bm :: bms) (get_list wl)) as [best source].
  cbn [fst] in Hok.
  destruct (negb (outcome_count_ok best)); [eauto|].
  rewrite (arb_edge_binary64 Hok). cbn [bind].
  destruct (fleb _ _); [eauto|].
  rewrite (stakes_for_edge_binary64 _ Hok). cbn [bind]. eauto.
Qed.

(** C6: the engine returns zero or one opportunity, and an event whose
    qualifying listings cover a number of distinct outcomes other than 2 or
    3 yields the empty list, with no exception.  Whatever the arithmetic, a
    returned list has at most one element, the other outcome counts give the
    empty list, and the count is that of the distinct outcome labels of the
    qualifying listings; and both on doubles and in exact arithmetic every
    call returns, no division ever meeting a zero. *)
Theorem find_arbs_zero_or_one :
  (forall (F : Type) (PF : PyFloat F) (ev : event F) t wl,
     (forall l, find_arbs_for_event ev t wl = Ok l -> (List.length l <= 1)%nat) /\
     (dict_len (fst (event_snapshot ev wl)) <> 2%nat ->
      dict_len (fst (event_snapshot ev wl)) <> 3%nat ->
      find_arbs_for_event ev t wl = Ok []) /\
     NoDup (dict_keys (fst (event_snapshot ev wl))) /\
     (forall o, In o (dict_keys (fst (event_snapshot ev wl))) <->
                exists name p,
                  In (name, o, p) (listings (get_list (ev_bookmakers ev)) (get_list wl)))) /\
  (forall (ev : event float) t wl,
     exists l, find_arbs_for_event ev t wl = Ok l /\ (List.length l <= 1)%nat) /\
  (forall (ev : event Q) t wl,
     exists l, find_arbs_for_event ev t wl = Ok l /\ (List.length l <= 1)%nat).
Proof.
  split; [|split].
  - intros F PF ev t wl. split; [|split].
    + intros l. apply find_arbs_at_most_one.
    + apply find_arbs_skips_other_counts.
    + apply snapshot_keys_listed.
  - intros ev t wl. destruct (find_arbs_total_binary64 ev t wl) as (l & Hl).
    exists l. split; auto. eapply find_arbs_at_most_one; eauto.
  - intros ev t wl. destruct (find_arbs_total_exact ev t wl) as (l & Hl).
    exists l. split; auto. eapply find_arbs_at_most_one; eauto.
Qed.

(** ** The engine on concrete events *)

Section Binary64Runs.

Local Open Scope float_scope.

(** Scenario D: the price 1.0 on B is left out although it is the only, and
    so the best, price on B; of the two books at 2.5 on A the first is kept. *)
Example scenario_d_snapshot :
  _best_odds_by_outcome (F := float) scenario_d [] = ([("A", 2.5)], [("A", "x")]).
Proof. reflexivity. Qed.

(** Scenario A with the threshold at 0.5 and at 5. *)
Example scenario_a_reported :
  exists opp,
    find_arbs_for_event (F := float) scenario_a (Some 0.5) None = Ok [opp] /\
    best_books opp = [("A", "x"); ("B", "y")].
Proof. eexists. split; reflexivity. Qed.

Example scenario_b_not_reported :
  find_arbs_for_event (F := float) scenario_a (Some 5) None = Ok [].
Proof. reflexivity. Qed.

Lemma best_odds_excludes_invalid_prices_witness :
  In ("A", 2.5) (fst (_best_odds_by_outcome (F := float) scenario_d [])) /\
  (is_finite 2.5 = true /\ (2.5 <=? 1) = false /\ (2.5 =? 1) = false /\
   exists bm m out,
     In bm (scenario_d (F := float)) /\ In m (get_list (bm_markets bm)) /\
     In out (get_list (mkt_outcomes m)) /\
     out_name out = Some "A" /\ out_price out = PriceVal 2.5).
Proof.
  split.
  - vm_compute. left. reflexivity.
  - apply (@best_odds_excludes_invalid_prices scenario_d [] "A" 2.5).
    vm_compute. left. reflexivity.
Defined.


(** C4 fails for a negative threshold: an event whose edge is negative is
    reported. *)
Lemma negative_threshold_reports_negative_edge :
  exists e opp,
    event_edge (F := float) losing_event None = Ok e /\
    (e <=? 0) = true /\
    find_arbs_for_event losing_event (Some (-10)) None = Ok [opp].
Proof.
  eexists. eexists. split; [vm_compute; reflexivity|].
  split; [reflexivity | vm_compute; reflexivity].
Qed.

(** C7 fails for an allow-list entry that is not lower-case: the bookmaker
    [Pinnacle] is left out under the allow-list [{"Pinnacle"}]. *)
Lemma mixed_case_entry_excludes_its_bookmaker :
  ci_member (bm_identifier (F := float) pinnacle) ["Pinnacle"%string] = true /\
  bookmaker_allowed (F := float) ["Pinnacle"%string] pinnacle = false /\
  _best_odds_by_outcome (F := float) [pinnacle] ["Pinnacle"%string] = ([], []) /\
  dict_len (fst (_best_odds_by_outcome (F := float) [pinnacle] [])) = 2%nat.
Proof. repeat split; reflexivity. Qed.


(** C10 fails on binary64: next to a price of 10^17 the stake on the other
    outcome is the whole bankroll. *)
Lemma stake_reaches_bankroll_in_binary64 :
  exists opp stakes s,
    find_arbs_for_event (F := float) lopsided_event (Some 0.5) None = Ok [opp] /\
    _stakes_for_edge (best_odds opp) f100 = Ok stakes /\
    In ("A"%string, s) stakes /\
    (s <? 100) = false.
Proof.
  eexists. eexists. eexists. split; [vm_compute; reflexivity|].
  split; [vm_compute; reflexivity|]. split; [left; reflexivity | reflexivity].
Qed.

End Binary64Runs.

Section ExactRuns.

Local Open Scope Q_scope.



Lemma stakes_strictly_inside_bankroll_witness :
  exists opp,
    find_arbs_for_event (F := Q) scenario_a (Some (1 # 2)) None = Ok [opp] /\
    exists stakes,
      _stakes_for_edge (best_odds opp) f100 = Ok stakes /\
      stakes_100 opp = map (fun kv => (fst kv, py_round (snd kv) 2)) stakes /\
      dict_keys stakes = dict_keys (best_odds opp) /\
      forall o s, In (o, s) stakes -> 0 < s /\ s < 100.
Proof.
  eexists. split.
  - vm_compute. reflexivity.
  - apply (@stakes_strictly_inside_bankroll scenario_a (Some (1 # 2)) None).
    vm_compute. reflexivity.
Defined.

End ExactRuns.

(** * More about the engine *)

(** ** The selection: sources, growth, order of the bookmakers *)

Section SelectionMore.
Context {F : Type} `{PyFloat F}.

(** X1: the two dictionaries of a snapshot have the same keys in the same
    order, and the bookmaker recorded for an outcome is the lower-cased name
    of a bookmaker of the event that the allow-list lets through and that
    quotes the recorded price for that outcome in an h2h market. *)
Theorem snapshot_source_quotes_best_price
    (bms : list (bookmaker F)) (wl : list string) :
  dict_keys (snd (_best_odds_by_outcome bms wl)) =
    dict_keys (fst (_best_odds_by_outcome bms wl)) /\
  (forall o p,
     dict_get (fst (_best_odds_by_outcome bms wl)) o = Some p ->
     exists bm m out,
       dict_get (snd (_best_odds_by_outcome bms wl)) o = Some (bm_name bm) /\
       In bm bms /\ bookmaker_allowed wl bm = true /\
       In m (get_list (bm_markets bm)) /\ mkt_key m = Some "h2h" /\
       In out (get_list (mkt_outcomes m)) /\
       out_name out = Some o /\ out_price out = PriceVal p).
Proof.
  destruct (best_odds_coherent bms wl) as (_ & Hk & He). split; auto.
  intros o p E. destruct (He _ _ E) as (name & Hs & HL).
  destruct (listing_origin _ _ _ _ _ HL)
    as (bm & m & out & H1 & H2 & H3 & H4 & H5 & H6 & H7 & H8 & _).
  exists bm, m, out. subst name. auto 10.
Qed.

Lemma fold_record_nil (L : list (listing F)) :
  L = [] -> fold_left record_listing L ([], []) = (([] : dict F), ([] : dict string)).
Proof. now intros ->. Qed.

(** X2: an event none of whose listings qualifies (no bookmaker, every
    bookmaker kept out by the allow-list, no h2h market, no accepted price)
    yields no opportunity, and no exception. *)
Theorem no_qualifying_listing_no_opportunity
    (ev : event F) (t : option F) (wl : option (list string)) :
  listings (get_list (ev_bookmakers ev)) (get_list wl) = [] ->
  find_arbs_for_event ev t wl = Ok [].
Proof.
  intros HL. apply find_arbs_skips_other_counts;
    unfold event_snapshot; rewrite best_odds_listings, (fold_record_nil HL);
    discriminate.
Qed.

Lemma mapM_keys {A B : Type} (f : string * A -> result B) (l : dict A) r :
  mapM (fun kv => s <- f kv ;; Ok (fst kv, s)) l = Ok r ->
  dict_keys r = dict_keys l.
Proof.
  revert r. induction l as [|kv l IH]; intros r; simpl.
  - intros E. now inversion E.
  - destruct (f kv) as [b|e]; cbn [bind]; [|discriminate].
    destruct (mapM _ l) as [bs|e] eqn:Em; cbn [bind]; [|discriminate].
    intros E. inversion E; subst. unfold dict_keys in *. simpl.
    f_equal. now apply IH.
Qed.

Lemma stakes_keys (best : dict F) bankroll stakes :
  _stakes_for_edge best bankroll = Ok stakes -> dict_keys stakes = dict_keys best.
Proof.
  unfold _stakes_for_edge.
  destruct (mapM _ best) as [inv|e] eqn:Ei; cbn [bind]; [|discriminate].
  intros Es. apply mapM_keys in Es. apply mapM_keys in Ei. congruence.
Qed.

(** X3: an opportunity the engine returns carries the event's identifier,
    sport, start time and teams; its best odds have two or three outcomes;
    and its bookmakers and its stakes are keyed by the same outcomes, in the
    same order, as its best odds. *)
Theorem opportunity_is_well_formed
    (ev : event F) (t : option F) (wl : option (list string))
    (opp : opportunity F) (l : list (opportunity F)) :
  find_arbs_for_event ev t wl = Ok (opp :: l) ->
  event_id opp = ev_id ev /\ sport_title opp = ev_sport_title ev /\
  commence_time opp = ev_commence_time ev /\
  home opp = ev_home_team ev /\ away opp = ev_away_team ev /\
  (dict_len (best_odds opp) = 2 \/ dict_len (best_odds opp) = 3)%nat /\
  NoDup (dict_keys (best_odds opp)) /\
  dict_keys (best_books opp) = dict_keys (best_odds opp) /\
  dict_keys (stakes_100 opp) = dict_keys (best_odds opp).
Proof.
  unfold find_arbs_for_event.
  destruct (get_list (ev_bookmakers ev)) as [|bm bms]; [discriminate|].
  destruct (best_odds_coherent (bm :: bms) (get_list wl)) as (Hnd & Hk & _).
  destruct (_best_odds_by_outcome (bm :: bms) (get_list wl)) as [best source].
  cbn [fst snd] in *.
  destruct (outcome_count_ok best) eqn:Hc; cbn [negb]; [|discriminate].
  destruct (_arb_edge best) as [edge|e]; cbn [bind]; [|discriminate].
  destruct (fleb edge _); [discriminate|].
  destruct (_stakes_for_edge best f100) as [stakes|e] eqn:Hs; cbn [bind];
    [|discriminate].
  intros E. inversion E; subst; clear E.
  cbn [event_id sport_title commence_time home away best_odds best_books stakes_100].
  repeat split; auto.
  - unfold outcome_count_ok in Hc. apply orb_true_iff in Hc.
    destruct Hc as [Hc|Hc]; apply Nat.eqb_eq in Hc; auto.
  - rewrite (dict_keys_map_values (fun x => py_round x 2)).
    eapply stakes_keys; eauto.
Qed.

End SelectionMore.

Section SelectionMore64.

Local Open Scope float_scope.

(** The recorded price of an outcome is a listed price that no listed price
    of the outcome exceeds. *)
Lemma best_is_maximum (L : list (listing float)) (o : string) :
  Forall listing_not_nan L ->
  match dict_get (fst (fold_left record_listing L ([], []))) o with
  | None => forall name q, ~ In (name, o, q) L
  | Some p =>
      (exists name, In (name, o, p) L) /\
      forall name q, In (name, o, q) L -> (q <=? p) = true
  end.
Proof.
  intros Hnn. pose proof (first_maximum_fold o Hnn) as Hm.
  unfold first_maximum in Hm.
  destruct (dict_get (fst (fold_left record_listing L ([], []))) o) as [p|].
  - destruct Hm as (L1 & name & L2 & HL & _ & H1 & H2).
    assert (Hp : F64.not_nan p).
    { rewrite Forall_forall in Hnn.
      apply (Hnn (name, o, p)). rewrite HL. apply in_or_app. right. now left. }
    split.
    + exists name. rewrite HL. apply in_or_app. right. now left.
    + intros n q Hin. rewrite HL in Hin. apply in_app_or in Hin.
      destruct Hin as [Hin|[E|Hin]].
      * apply F64Order.ltb_leb. eauto.
      * inversion E; subst. now apply F64Order.leb_refl.
      * eauto.
  - apply Hm.
Qed.

Lemma accepted_shape (p : float) :
  price_rejected p = false -> exists m e, Prim2SF p = S754_finite false m e.
Proof.
  intros Hok. apply price_accepted64 in Hok. destruct Hok as [Hf Hle].
  assert (Hlt : (1 <? p) = true).
  { apply F64Order.leb_false_ltb; auto.
    - now apply F64Order.finite_not_nan.
    - reflexivity. }
  apply F64Order.ltb_key in Hlt. destruct Hlt as (_ & Hn & Hk).
  apply F64Order.not_nan_spec in Hn. unfold F64.fkey in Hk.
  rewrite F64Round.Prim2SF_one in Hk.
  destruct (Prim2SF p) as [s|s| |s m e] eqn:Ep; try congruence.
  - exfalso. cbn in Hk. lia.
  - exfalso. eapply F64Round.finite_not_infinity; eauto.
  - destruct s; [exfalso; cbn in Hk; lia|]. eauto.
Qed.

(** Two accepted prices that are [<=] each other are the same double. *)
Lemma accepted_leb_antisym (p q : float) :
  price_rejected p = false -> price_rejected q = false ->
  (p <=? q) = true -> (q <=? p) = true -> p = q.
Proof.
  intros Hp Hq Hpq Hqp.
  apply F64Order.leb_key in Hpq. destruct Hpq as (_ & _ & Hpq).
  apply F64Order.leb_key in Hqp. destruct Hqp as (_ & _ & Hqp).
  assert (Hk : F64.fkey p = F64.fkey q).
  { destruct Hpq as [Hpq|Hpq]; auto. destruct Hqp as [Hqp|Hqp]; auto.
    exfalso. eapply F64Order.klt_irrefl, F64Order.klt_trans; eauto. }
  destruct (accepted_shape _ Hp) as (m & e & Ep).
  destruct (accepted_shape _ Hq) as (m' & e' & Eq).
  unfold F64.fkey in Hk. rewrite Ep, Eq in Hk. cbn in Hk.
  apply Prim2SF_inj. rewrite Ep, Eq. inversion Hk; subst. reflexivity.
Qed.

Lemma listing_accepted (bms : list (bookmaker float)) wl name o p :
  In (name, o, p) (listings bms wl) -> price_rejected p = false.
Proof.
  intros Hin. apply listing_origin in Hin.
  destruct Hin as (_ & _ & _ & _ & _ & _ & _ & _ & _ & _ & _ & Hok). exact Hok.
Qed.

(** X4: more bookmakers never lose an outcome and never lower its best
    price: what the selection records for an outcome over a list of
    bookmakers is still recorded, with a price at least as high, when further
    bookmakers follow. *)
Theorem more_bookmakers_never_lower_best_price
    (bms more : list (bookmaker float)) (wl : list string) (o : string) (p : float) :
  dict_get (fst (_best_odds_by_outcome bms wl)) o = Some p ->
  exists p',
    dict_get (fst (_best_odds_by_outcome (bms ++ more) wl)) o = Some p' /\
    (p <=? p') = true.
Proof.
  intros E.
  pose proof (best_is_maximum o (listings_not_nan bms wl)) as H1.
  pose proof (best_is_maximum o (listings_not_nan (bms ++ more) wl)) as H2.
  rewrite <- best_odds_listings in H1, H2. rewrite E in H1.
  destruct H1 as [(name & Hin) _].
  assert (Hin' : In (name, o, p) (listings (bms ++ more) wl)).
  { rewrite listings_app. apply in_or_app. now left. }
  destruct (dict_get (fst (_best_odds_by_outcome (bms ++ more) wl)) o) as [p'|].
  - exists p'. split; auto. destruct H2 as [_ H2]. eauto.
  - exfalso. eapply H2; eauto.
Qed.


(** X6: raising the threshold never adds a report: an event that yields no
    opportunity at one threshold yields none at any threshold above it. *)
Theorem stricter_threshold_reports_no_more
    (ev : event float) (t t' : float) (wl : option (list string)) :
  find_arbs_for_event ev (Some t) wl = Ok [] ->
  (t <=? t') = true ->
  find_arbs_for_event ev (Some t') wl = Ok [].
Proof.
  unfold find_arbs_for_event. intros Hfind Hle.
  destruct (get_list (ev_bookmakers ev)) as [|bm bms]; auto.
  destruct (_best_odds_by_outcome (bm :: bms) (get_list wl)) as [best source].
  destruct (negb (outcome_count_ok best)); auto.
  destruct (_arb_edge best) as [edge|e]; cbn [bind] in *; [|discriminate].
  destruct (fleb edge t) eqn:Et.
  - cbn [fleb binary64] in Et |- *.
    now rewrite (F64Order.leb_trans Et Hle).
  - destruct (_stakes_for_edge best f100); cbn [bind] in Hfind; discriminate.
Qed.

End SelectionMore64.

(** ** Edge and stakes in exact arithmetic *)

Section ExactMore.

Local Open Scope Q_scope.

(** X7: edge and stakes agree.  On a snapshot of two or three outcomes and a
    positive bankroll, the payout [stake * price], the same whichever
    outcome wins, is [bankroll / (1 - edge/100)]; so it exceeds the bankroll
    exactly when the edge is positive. *)
Theorem positive_edge_is_guaranteed_profit
    (bms : list (bookmaker Q)) (wl : list string) (bankroll : Q) :
  (dict_len (fst (_best_odds_by_outcome bms wl)) = 2 \/
   dict_len (fst (_best_odds_by_outcome bms wl)) = 3)%nat ->
  0 < bankroll ->
  exists e stakes payout,
    _arb_edge (fst (_best_odds_by_outcome bms wl)) = Ok e /\
    _stakes_for_edge (fst (_best_odds_by_outcome bms wl)) bankroll = Ok stakes /\
    (forall o s p,
       dict_get stakes o = Some s ->
       dict_get (fst (_best_odds_by_outcome bms wl)) o = Some p ->
       s * p == payout) /\
    payout * (100 - e) == 100 * bankroll /\
    (0 < e <-> bankroll < payout).
Proof.
  intros Hlen Hb.
  set (best := fst (_best_odds_by_outcome bms wl)) in *.
  assert (Hok : snapshot_prices_ok best) by apply best_odds_prices_ok.
  assert (Hne : best <> []) by now apply dict_len_nonempty.
  pose proof (snapshot_inv_sum_pos Hok Hne) as Hs.
  destruct (arb_edge_exact Hok) as (e & He & Ee).
  set (s := py_sum (map (fun p => 1 / p) (dict_values best))) in *.
  assert (Es : s == implied_sum (dict_values best)).
  { unfold s. rewrite py_sum_exact, <- implied_sum_fold. reflexivity. }
  assert (Ee' : e == (1 - s) * 100).
  { rewrite Ee. unfold edge_formula. rewrite Es. reflexivity. }
  exists e. eexists. exists (bankroll / s).
  split; [exact He|]. split; [apply stakes_for_edge_exact; exact Hok|].
  split; [|split].
  - intros o st p E B. rewrite dict_get_map_values, B in E. simpl in E.
    inversion E; subst st. apply equal_payout; auto.
    apply dict_get_In in B. apply prices_ok_exact in Hok.
    rewrite Forall_forall in Hok. apply Hok.
    unfold dict_values. change p with (snd (o, p)). now apply in_map.
  - rewrite Ee'. field. lra.
  - rewrite Ee'. split; intros Hlt.
    + apply Qlt_shift_div_l; auto. nra.
    + assert (Hx : bankroll * s < bankroll / s * s)
        by (apply Qmult_lt_compat_r; auto).
      assert (E1 : bankroll / s * s == bankroll) by (field; lra).
      rewrite E1 in Hx. nra.
Qed.

Lemma long_price_exists (ps : list Q) (c : Q) :
  0 < c -> Forall (fun p => 1 < p) ps ->
  implied_sum ps < inject_Z (Z.of_nat (List.length ps)) / c ->
  exists p, In p ps /\ c < p.
Proof.
  intros Hc. induction ps as [|p ps IH]; intros Hall Hsum.
  - exfalso. simpl in Hsum. unfold Qdiv in Hsum. rewrite Qmult_0_l in Hsum. lra.
  - inversion Hall as [|? ? Hp Hps]; subst.
    destruct (Qlt_le_dec c p) as [Hlt|Hle].
    + exists p. split; [now left | exact Hlt].
    + destruct IH as (q & Hq & Hcq); auto.
      * assert (H1 : 1 / c <= 1 / p) by (apply inv_antitone; lra || auto).
        assert (E : inject_Z (Z.of_nat (List.length (p :: ps))) / c ==
                    1 / c + inject_Z (Z.of_nat (List.length ps)) / c).
        { cbn [List.length]. rewrite Nat2Z.inj_succ. unfold Z.succ.
          rewrite inject_Z_plus. field. lra. }
        rewrite E in Hsum. simpl in Hsum. lra.
      * exists q. split; [now right | exact Hcq].
Qed.

(** X8: an arbitrage needs a long price.  On a snapshot of two or three
    outcomes a positive edge requires some outcome priced above the number
    of outcomes: above 2 in a two-way market, above 3 in a three-way one. *)
Theorem positive_edge_needs_a_long_price
    (bms : list (bookmaker Q)) (wl : list string) (e : Q) :
  (dict_len (fst (_best_odds_by_outcome bms wl)) = 2 \/
   dict_len (fst (_best_odds_by_outcome bms wl)) = 3)%nat ->
  _arb_edge (fst (_best_odds_by_outcome bms wl)) = Ok e ->
  0 < e ->
  exists o p,
    In (o, p) (fst (_best_odds_by_outcome bms wl)) /\
    inject_Z (Z.of_nat (dict_len (fst (_best_odds_by_outcome bms wl)))) < p.
Proof.
  intros Hlen He Hpos.
  set (best := fst (_best_odds_by_outcome bms wl)) in *.
  assert (Hok : snapshot_prices_ok best) by apply best_odds_prices_ok.
  destruct (arb_edge_exact Hok) as (e' & He' & Ee). rewrite He in He'.
  inversion He'; subst e'. unfold edge_formula in Ee.
  set (n := inject_Z (Z.of_nat (dict_len best))).
  assert (Hn : 0 < n).
  { unfold n. destruct Hlen as [-> | ->]; reflexivity. }
  destruct (@long_price_exists (dict_values best) n) as (p & Hin & Hlt); auto.
  - now apply prices_ok_exact.
  - assert (Hl : List.length (dict_values best) = dict_len best)
      by apply length_map.
    rewrite Hl. fold n.
    assert (E1 : n / n == 1) by (field; lra). rewrite E1. lra.
  - unfold dict_values in Hin. apply in_map_iff in Hin.
    destruct Hin as ([o p'] & Ep & Hin). simpl in Ep. subst p'.
    exists o, p. auto.
Qed.

(** X9: stakes scale with the bankroll: the stake on an outcome for a
    bankroll [b] is the stake for a bankroll of 100, the one the engine
    reports, times [b / 100]. *)
Theorem stakes_scale_with_bankroll
    (bms : list (bookmaker Q)) (wl : list string) (b : Q) (o : string) (s100 : Q)
    (stakes100 : dict Q) :
  _stakes_for_edge (fst (_best_odds_by_outcome bms wl)) 100 = Ok stakes100 ->
  dict_get stakes100 o = Some s100 ->
  exists stakes s,
    _stakes_for_edge (fst (_best_odds_by_outcome bms wl)) b = Ok stakes /\
    dict_get stakes o = Some s /\
    s == s100 * (b / 100).
Proof.
  set (best := fst (_best_odds_by_outcome bms wl)).
  assert (Hok : snapshot_prices_ok best) by apply best_odds_prices_ok.
  rewrite (stakes_for_edge_exact 100 Hok). intros E Hget.
  inversion E; subst stakes100; clear E.
  rewrite dict_get_map_values in Hget.
  destruct (dict_get best o) as [p|] eqn:Hp; [|discriminate].
  simpl in Hget. inversion Hget; subst s100; clear Hget.
  eexists. eexists. split; [apply stakes_for_edge_exact; exact Hok|].
  split; [rewrite dict_get_map_values, Hp; reflexivity|].
  assert (Hne : best <> []) by (intros ->; discriminate).
  pose proof (snapshot_inv_sum_pos Hok Hne) as Hs.
  assert (1 < p).
  { apply dict_get_In in Hp. apply prices_ok_exact in Hok.
    rewrite Forall_forall in Hok. apply Hok.
    unfold dict_values. change p with (snd (o, p)). now apply in_map. }
  unfold exact_stake. field. split; lra.
Qed.

End ExactMore.

(** ** The allow-list the driver configures *)

Section ConfiguredWhitelist.
Context {F : Type} `{PyFloat F}.

Lemma is_space_lower c : is_space (lower_ascii c) = is_space c.
Proof. destruct c as [[] [] [] [] [] [] [] []]; reflexivity. Qed.

Lemma lower_empty s : lower s = "" -> s = "".
Proof. destruct s; [reflexivity | discriminate]. Qed.

Lemma lstrip_lower s : lstrip (lower s) = lower (lstrip s).
Proof.
  induction s as [|c s IH]; simpl; auto.
  rewrite is_space_lower. destruct (is_space c); auto.
Qed.

Lemma rstrip_lower s : rstrip (lower s) = lower (rstrip s).
Proof.
  induction s as [|c s IH]; simpl; auto.
  rewrite IH, is_space_lower.
  destruct (rstrip s); simpl; auto. destruct (is_space c); auto.
Qed.

Lemma strip_lower s : strip (lower s) = lower (strip s).
Proof. unfold strip. now rewrite lstrip_lower, rstrip_lower. Qed.

Lemma rstrip_idem s : rstrip (rstrip s) = rstrip s.
Proof.
  induction s as [|c s IH]; simpl; auto.
  destruct (rstrip s) as [|c' t] eqn:E.
  - destruct (is_space c) eqn:Ec; simpl; auto. now rewrite Ec.
  - simpl in *. rewrite IH. reflexivity.
Qed.

Lemma lstrip_starts_clean s : starts_clean (lstrip s) = true.
Proof.
  induction s as [|c s IH]; simpl; auto.
  destruct (is_space c) eqn:E; auto. simpl. now rewrite E.
Qed.

Lemma rstrip_starts_clean s : starts_clean s = true -> starts_clean (rstrip s) = true.
Proof.
  destruct s as [|c s]; simpl; auto. intros Hc.
  destruct (is_space c) eqn:Ec; [discriminate|].
  destruct (rstrip s); simpl; now rewrite Ec.
Qed.

Lemma lstrip_clean s : starts_clean s = true -> lstrip s = s.
Proof.
  destruct s as [|c s]; simpl; auto.
  destruct (is_space c); [discriminate | auto].
Qed.

Lemma strip_idem s : strip (strip s) = strip s.
Proof.
  unfold strip.
  rewrite (lstrip_clean _ (rstrip_starts_clean _ (lstrip_starts_clean s))).
  apply rstrip_idem.
Qed.

(** X10: every entry of the allow-list the driver reads from
    [BOOKMAKER_WHITELIST] is non-empty, lower-case and free of surrounding
    white space; and when the variable is not set the list is empty, which
    lets every bookmaker through. *)
Theorem configured_whitelist_is_normalised (env : environ F) :
  (forall e, In e (BOOKMAKER_WHITELIST env) ->
     str_truthy e = true /\ lower e = e /\ strip e = e) /\
  (env_BOOKMAKER_WHITELIST env = None ->
     forall bm : bookmaker F, bookmaker_allowed (BOOKMAKER_WHITELIST env) bm = true).
Proof.
  split.
  - unfold BOOKMAKER_WHITELIST. intros e Hin. apply in_map_iff in Hin.
    destruct Hin as (b & <- & Hb). apply filter_In in Hb. destruct Hb as [_ Hb].
    repeat split.
    + destruct (lower (strip b)) eqn:E; auto.
      apply lower_empty in E. rewrite E in Hb. discriminate.
    + apply lower_idem.
    + now rewrite strip_lower, strip_idem.
  - intros E bm. unfold BOOKMAKER_WHITELIST. rewrite E. reflexivity.
Qed.

End ConfiguredWhitelist.

(** * The driver *)

(** ** The alert message *)

Section MessageFacts.
Context {F : Type} `{PyFloat F}.
Variable float_str : F -> string.

Lemma same_keys_lookup {A B : Type} (d : dict A) (e : dict B) o a :
  dict_keys e = dict_keys d -> In (o, a) d -> exists b, dict_get e o = Some b.
Proof.
  intros Hk Hin.
  assert (Hm : dict_mem e o = true).
  { apply dict_mem_In. rewrite Hk. unfold dict_keys.
    change o with (fst (o, a)). now apply in_map. }
  unfold dict_mem in Hm. destruct (dict_get e o) as [b|]; [eauto | discriminate].
Qed.

(** X11: the message of an opportunity the engine returns has twelve or
    thirteen lines, ten of them fixed and one for each outcome of the best
    odds; and every outcome has its bookmaker, a bookmaker of the event, so
    that its line carries that name and never the placeholder. *)
Theorem alert_message_names_every_source
    (ev : event F) (t : option F) (wl : option (list string))
    (opp : opportunity F) (l : list (opportunity F)) :
  find_arbs_for_event ev t wl = Ok (opp :: l) ->
  List.length (message_lines float_str opp) = (10 + dict_len (best_odds opp))%nat /\
  (dict_len (best_odds opp) = 2 \/ dict_len (best_odds opp) = 3)%nat /\
  forall o p,
    In (o, p) (best_odds opp) ->
    exists bm,
      In bm (get_list (ev_bookmakers ev)) /\
      dict_get (best_books opp) o = Some (bm_name bm) /\
      In (outcome_line float_str [(o, bm_name bm)] (o, p))
         (message_lines float_str opp).
Proof.
  intros Hfind.
  destruct (find_arbs_opportunity _ _ _ Hfind)
    as (_ & Hb & Hs & Hc & _).
  split; [|split].
  - unfold message_lines. rewrite !length_app, length_map. simpl.
    unfold dict_len. lia.
  - unfold outcome_count_ok in Hc. apply orb_true_iff in Hc.
    destruct Hc as [Hc|Hc]; apply Nat.eqb_eq in Hc; auto.
  - intros o p Hin.
    pose proof (best_odds_coherent (get_list (ev_bookmakers ev)) (get_list wl))
      as (Hnd & Hk & He).
    unfold event_snapshot in Hb, Hs. rewrite <- Hb, <- Hs in *.
    assert (Hget : dict_get (best_odds opp) o = Some p)
      by (apply In_dict_get; auto).
    destruct (He _ _ Hget) as (name & Hname & HL).
    destruct (listing_origin _ _ _ _ _ HL) as (bm & m & out & Hbm & _ & -> & _).
    exists bm. repeat split; auto.
    unfold message_lines. do 5 (apply in_or_app; left).
    apply in_or_app. right.
    replace (outcome_line float_str [(o, bm_name bm)] (o, p))
      with (outcome_line float_str (best_books opp) (o, p)).
    + now apply in_map.
    + unfold outcome_line. cbn [fst snd dict_get].
      now rewrite Hname, String.eqb_refl.
Qed.

End MessageFacts.

(** ** One scan *)

Section ScanFacts.
Context {F : Type} `{PyFloat F}.
Variable float_str : F -> string.
Variable w : world F.

Lemma split_on_nonempty sep s : split_on sep s <> [].
Proof.
  destruct s as [|c s]; simpl; [discriminate|].
  destruct (Ascii.eqb c sep); [discriminate|].
  destruct (split_on sep s); discriminate.
Qed.

(** [sep.join(s.split(sep))] is [s]. *)
Lemma join_split (sep : ascii) (s : string) :
  join (String sep EmptyString) (split_on sep s) = s.
Proof.
  induction s as [|c s IH]; simpl; auto.
  pose proof (split_on_nonempty sep s) as Hne.
  destruct (Ascii.eqb_spec c sep) as [->|Hc].
  - destruct (split_on sep s) as [|x l] eqn:E; [congruence|].
    cbn [join String.append] in *. now rewrite IH.
  - destruct (split_on sep s) as [|x l] eqn:E; [congruence|].
    destruct l as [|y l]; cbn [join String.append] in *; now rewrite <- IH.
Qed.

(** *** What one request leaves in the transcript *)

Lemma post_outcome tg method payload h :
  exists x,
    snd (_post w tg method payload h) = h ++ [x] /\
    is_post x = true /\
    match fst (_post w tg method payload h) with
    | Returned _ => is_failed_post x = false
    | Raised _ => is_failed_post x = true
    end.
Proof.
  unfold _post.
  exists (Posted (tg_base tg ++ "/" ++ method)%string payload
                 (telegram w h (tg_base tg ++ "/" ++ method)%string payload)).
  split; [|split].
  - destruct (telegram w h _ payload) as [status text json|e];
      [destruct (negb (status =? 200)%Z); [|destruct json]|]; reflexivity.
  - reflexivity.
  - cbn [is_failed_post].
    destruct (telegram w h _ payload) as [status text json|e]; cbn [fst reply_ok];
      [|reflexivity].
    destruct (status =? 200)%Z eqn:Es; cbn [negb fst];
      destruct json; cbn [fst]; try rewrite Es; reflexivity.
Qed.

Lemma fetch_outcome api sport regions markets fmt dfmt h :
  exists reply,
    snd (fetch_odds w api sport regions markets fmt dfmt h) =
      h ++ [Fetched (BASE ++ "/sports/" ++ sport ++ "/odds")%string
                    [("apiKey", api_key api); ("regions", regions);
                     ("markets", markets); ("oddsFormat", fmt);
                     ("dateFormat", dfmt)] reply] /\
    match fst (fetch_odds w api sport regions markets fmt dfmt h) with
    | Returned data =>
        reply_ok reply = true /\
        events_of (Fetched (BASE ++ "/sports/" ++ sport ++ "/odds")%string
                           [("apiKey", api_key api); ("regions", regions);
                            ("markets", markets); ("oddsFormat", fmt);
                            ("dateFormat", dfmt)] reply) = data
    | Raised _ => reply_ok reply = false
    end.
Proof.
  unfold fetch_odds.
  exists (odds_api w h (BASE ++ "/sports/" ++ sport ++ "/odds")%string
                   [("apiKey", api_key api); ("regions", regions);
                    ("markets", markets); ("oddsFormat", fmt);
                    ("dateFormat", dfmt)]).
  split.
  - destruct (odds_api w h _ _) as [status text json|e];
      [destruct (negb (status =? 200)%Z); [|destruct json]|]; reflexivity.
  - destruct (odds_api w h _ _) as [status text json|e]; cbn [fst reply_ok events_of];
      [|reflexivity].
    destruct (status =? 200)%Z eqn:Es; cbn [negb fst];
      destruct json; cbn [fst]; try rewrite Es; auto.
Qed.

(** *** A scan raises only where Telegram fails *)

Lemma ends_in_failed_post_app (pre new : list (exchange F)) :
  ends_in_failed_post new -> ends_in_failed_post (pre ++ new).
Proof.
  intros (p & x & -> & Hx). exists (pre ++ p), x. now rewrite app_assoc.
Qed.

Lemma raises_ret {A : Type} (a : A) : raises_at_failed_post (io_ret (F := F) a).
Proof.
  intros h. exists []. split; [cbn; now rewrite app_nil_r | discriminate].
Qed.

Lemma raises_bind {A B : Type} (c : io F A) (k : A -> io F B) :
  raises_at_failed_post c -> (forall a, raises_at_failed_post (k a)) ->
  raises_at_failed_post (io_bind c k).
Proof.
  intros Hc Hk h. unfold io_bind.
  destruct (Hc h) as (n1 & E1 & R1). destruct (c h) as [[a|e] h1]; cbn [fst snd] in *.
  - destruct (Hk a h1) as (n2 & E2 & R2). exists (n1 ++ n2). subst h1.
    split; [now rewrite E2, app_assoc|].
    intros e He. apply ends_in_failed_post_app. eauto.
  - exists n1. split; auto.
    intros e0 He0. inversion He0; subst. now apply (R1 e0).
Qed.

Lemma raises_post tg method payload :
  raises_at_failed_post (_post w tg method payload).
Proof.
  intros h. destruct (post_outcome tg method payload h) as (x & E & _ & Hx).
  exists [x]. split; auto. intros e He. rewrite He in Hx.
  exists [], x. auto.
Qed.

Lemma raises_send_alerts tg arbs : forall alerts,
  raises_at_failed_post (send_alerts float_str w tg arbs alerts).
Proof.
  induction arbs as [|arb arbs IH]; intros alerts; cbn [send_alerts].
  - apply raises_ret.
  - apply raises_bind; [apply raises_post | intros _; apply IH].
Qed.

Lemma raises_scan_events env tg events : forall alerts,
  raises_at_failed_post (scan_events float_str w env tg events alerts).
Proof.
  induction events as [|ev events IH]; intros alerts; cbn [scan_events].
  - apply raises_ret.
  - destruct (scan_event env ev) as [arbs|e].
    + apply raises_bind; [apply raises_send_alerts | intros a; apply IH].
    + apply raises_bind; [apply raises_post | intros _; apply IH].
Qed.

Lemma raises_try {A B : Type} (c : io F A) (k : A -> io F B)
    (handler : exception -> io F B) :
  (forall h, exists new, snd (c h) = h ++ new) ->
  (forall a, raises_at_failed_post (k a)) ->
  (forall e, raises_at_failed_post (handler e)) ->
  raises_at_failed_post (io_try c k handler).
Proof.
  intros Hc Hk Hh h. unfold io_try.
  destruct (Hc h) as (n1 & E1). destruct (c h) as [[a|e] h1]; cbn [snd] in E1;
    subst h1.
  - destruct (Hk a (h ++ n1)) as (n2 & E2 & R2). exists (n1 ++ n2).
    split; [now rewrite E2, app_assoc|].
    intros e He. apply ends_in_failed_post_app. eauto.
  - destruct (Hh e (h ++ n1)) as (n2 & E2 & R2). exists (n1 ++ n2).
    split; [now rewrite E2, app_assoc|].
    intros e' He. apply ends_in_failed_post_app. eauto.
Qed.

Lemma raises_scan_sports fenv env odds tg sports : forall alerts,
  raises_at_failed_post (scan_sports float_str w fenv env odds tg sports alerts).
Proof.
  induction sports as [|sport sports IH]; intros alerts; cbn [scan_sports].
  - apply raises_ret.
  - apply raises_try.
    + intros h.
      destruct (fetch_outcome odds sport (join "," (DEFAULT_REGIONS fenv))
                  (join "," (DEFAULT_MARKETS fenv)) "decimal" "iso" h)
        as (reply & E & _).
      eauto.
    + intros events. apply raises_bind; [apply raises_scan_events | intros a; apply IH].
    + intros e. apply raises_bind; [apply raises_post | intros _; apply IH].
Qed.


(** *** The loop of [main] *)

Lemma raises_scan_once fenv env odds tg :
  raises_at_failed_post (scan_once float_str w fenv env odds tg).
Proof. apply raises_scan_sports. Qed.

(** A block that raises only at a failed delivery, inside a [try] whose
    handler reports to Telegram: what gets out has failed twice in a row. *)
Lemma catch_raises_twice (c : io F unit) tg (report : exception -> string) h e :
  raises_at_failed_post c ->
  fst (io_catch c (fun e => log w tg (report e)) h) = Raised e ->
  exists pre x1 x2,
    snd (io_catch c (fun e => log w tg (report e)) h) = h ++ pre ++ [x1; x2] /\
    is_failed_post x1 = true /\ is_failed_post x2 = true.
Proof.
  intros Hc. unfold io_catch, log, send.
  destruct (Hc h) as (new & E & R).
  destruct (c h) as [[a|e0] h1]; cbn [fst snd] in *; [discriminate|].
  destruct (R e0 eq_refl) as (pre & x1 & -> & H1).
  destruct (post_outcome tg "sendMessage"
              [("chat_id", chat_id tg); ("text", report e0)] h1)
    as (x2 & E2 & _ & H2).
  intros He. rewrite He in H2. exists pre, x1, x2.
  rewrite E2, E, <- !app_assoc. auto.
Qed.


(** *** A scan while Telegram delivers *)

Section Delivering.
Hypothesis Htg : telegram_delivers w.

Lemma post_delivers tg method payload h :
  exists x, _post w tg method payload h = (Returned tt, h ++ [x]) /\ is_post x = true.
Proof.
  unfold _post. pose proof (Htg h (tg_base tg ++ "/" ++ method)%string payload) as Hr.
  destruct (telegram w h _ payload) as [status text json|e]; cbn [reply_ok] in Hr;
    [|discriminate].
  destruct json as [[]|e]; [|discriminate]. rewrite Hr. cbn [negb].
  eexists. split; reflexivity.
Qed.

Lemma posts_only_counts (new : list (exchange F)) :
  posts_only new ->
  filter is_post new = new /\ filter is_failed_fetch new = [] /\
  flat_map events_of new = [] /\ flat_map fetch_request new = [].
Proof.
  induction 1 as [|x new Hx _ IH]; [repeat split|].
  destruct IH as (I1 & I2 & I3 & I4). destruct x; [discriminate|].
  cbn. rewrite I1, I2, I3, I4. repeat split.
Qed.

Lemma send_alerts_delivers tg arbs : forall alerts h,
  exists new,
    send_alerts float_str w tg arbs alerts h =
      (Returned (alerts + List.length arbs)%nat, h ++ new) /\
    posts_only new /\ List.length new = List.length arbs.
Proof.
  induction arbs as [|arb arbs IH]; intros alerts h; cbn [send_alerts].
  - exists []. unfold io_ret. rewrite app_nil_r, Nat.add_0_r.
    repeat split. constructor.
  - unfold io_bind, send.
    destruct (post_delivers tg "sendMessage"
                [("chat_id", chat_id tg); ("text", format_arb_message float_str arb)] h)
      as (x & -> & Hx).
    destruct (IH (S alerts) (h ++ [x])) as (new & -> & Hp & Hl).
    exists (x :: new). rewrite <- app_assoc. cbn [List.length app].
    repeat split.
    + f_equal. f_equal. lia.
    + now constructor.
    + now rewrite Hl.
Qed.

(** The events of one fetch: the calculation may fail, the scan goes on. *)
Lemma scan_events_delivers env tg events : forall alerts h,
  exists n new,
    scan_events float_str w env tg events alerts h = (Returned n, h ++ new) /\
    posts_only new /\
    ((forall ev, In ev events -> exists arbs, scan_event env ev = Ok arbs) ->
     (alerts <= n)%nat /\ List.length new = (n - alerts)%nat /\
     (n - alerts <= List.length events)%nat).
Proof.
  induction events as [|ev events IH]; intros alerts h; cbn [scan_events].
  - exists alerts, []. unfold io_ret. rewrite app_nil_r.
    repeat split; try constructor; cbn; lia.
  - destruct (scan_event env ev) as [arbs|e] eqn:Eev.
    + unfold io_bind.
      destruct (send_alerts_delivers tg arbs alerts h) as (n1 & -> & Hp1 & Hl1).
      destruct (IH (alerts + List.length arbs)%nat (h ++ n1))
        as (n & n2 & -> & Hp2 & Hc).
      exists n, (n1 ++ n2). rewrite app_assoc.
      split; [reflexivity|]. split; [apply Forall_app; auto|].
      intros Htot.
      assert (Hone : (List.length arbs <= 1)%nat).
      { unfold scan_event in Eev. eapply find_arbs_at_most_one; eauto. }
      destruct Hc as (H1 & H2 & H3); [intros; apply Htot; now right|].
      rewrite length_app. cbn [List.length]. lia.
    + unfold io_bind, log, send.
      match goal with
      | |- context [_post w tg ?m ?p ?hh] =>
          destruct (post_delivers tg m p hh) as (x & -> & Hx)
      end.
      destruct (IH alerts (h ++ [x])) as (n & n2 & -> & Hp2 & Hc).
      exists n, (x :: n2). rewrite <- app_assoc.
      split; [reflexivity|]. split; [now constructor|].
      intros Htot. exfalso.
      destruct (Htot ev (or_introl eq_refl)) as (arbs & Ea). congruence.
Qed.

Lemma failed_reply_no_events url params (reply : http_reply (list (event F))) :
  reply_ok reply = false -> events_of (Fetched url params reply) = [].
Proof.
  destruct reply as [status text [data|e]|e]; cbn; auto.
  now intros ->.
Qed.

Lemma scan_sports_delivers fenv env odds tg sports : forall alerts h,
  exists n new,
    scan_sports float_str w fenv env odds tg sports alerts h =
      (Returned n, h ++ new) /\
    flat_map fetch_request new = map (request_for fenv odds) sports /\
    ((forall ev, exists arbs, scan_event env ev = Ok arbs) ->
     (alerts <= n)%nat /\
     List.length (filter is_post new) =
       (n - alerts + List.length (filter is_failed_fetch new))%nat /\
     (n - alerts <= List.length (flat_map events_of new))%nat).
Proof.
  induction sports as [|sport sports IH]; intros alerts h; cbn [scan_sports].
  - exists alerts, []. unfold io_ret. rewrite app_nil_r.
    repeat split; cbn; lia.
  - unfold io_try.
    destruct (fetch_outcome odds sport (join "," (DEFAULT_REGIONS fenv))
                (join "," (DEFAULT_MARKETS fenv)) "decimal" "iso" h)
      as (reply & E & Hout).
    unfold DEFAULT_REGIONS, DEFAULT_MARKETS in *. rewrite !join_split in *.
    destruct (fetch_odds w odds sport _ _ "decimal" "iso" h) as [[events|e] h1];
      cbn [fst snd] in *; subst h1.
    + destruct Hout as [Hok Hev]. unfold io_bind.
      destruct (scan_events_delivers env tg events alerts
                  (h ++ [Fetched (BASE ++ "/sports/" ++ sport ++ "/odds")%string
                           [("apiKey", api_key odds);
                            ("regions", getenv (env_REGIONS fenv) "eu,uk,us,au");
                            ("markets", getenv (env_MARKETS fenv) "h2h");
                            ("oddsFormat", "decimal"); ("dateFormat", "iso")] reply]))
        as (n1 & new1 & -> & Hp1 & Hc1).
      destruct (IH n1 ((h ++ [Fetched (BASE ++ "/sports/" ++ sport ++ "/odds")%string
                           [("apiKey", api_key odds);
                            ("regions", getenv (env_REGIONS fenv) "eu,uk,us,au");
                            ("markets", getenv (env_MARKETS fenv) "h2h");
                            ("oddsFormat", "decimal"); ("dateFormat", "iso")] reply])
                       ++ new1))
        as (n & new2 & -> & Hr2 & Hc2).
      destruct (posts_only_counts Hp1) as (P1 & P2 & P3 & P4).
      eexists n, (_ :: new1 ++ new2).
      split; [now rewrite <- !app_assoc|]. split.
      * cbn [flat_map fetch_request map app]. rewrite flat_map_app, P4, Hr2.
        reflexivity.
      * intros Htot. destruct Hc1 as (A1 & A2 & A3); [intros; apply Htot|].
        destruct (Hc2 Htot) as (B1 & B2 & B3).
        cbn [filter is_post is_failed_fetch flat_map]. rewrite Hok. cbn [negb].
        rewrite !filter_app, !flat_map_app, !length_app, P1, P2, P3, Hev.
        cbn [List.length app]. lia.
    + unfold io_bind, log, send.
      match goal with
      | |- context [_post w tg ?m ?p ?hh] =>
          destruct (post_delivers tg m p hh) as (x & -> & Hx)
      end.
      destruct (IH alerts ((h ++ [Fetched (BASE ++ "/sports/" ++ sport ++ "/odds")%string
                           [("apiKey", api_key odds);
                            ("regions", getenv (env_REGIONS fenv) "eu,uk,us,au");
                            ("markets", getenv (env_MARKETS fenv) "h2h");
                            ("oddsFormat", "decimal"); ("dateFormat", "iso")] reply])
                           ++ [x]))
        as (n & new2 & -> & Hr2 & Hc2).
      destruct x as [? ? ?|purl ppay prep]; [discriminate|].
      eexists n, (_ :: _ :: new2).
      split; [now rewrite <- !app_assoc|]. split.
      * cbn [flat_map fetch_request map app]. now rewrite Hr2.
      * intros Htot. destruct (Hc2 Htot) as (B1 & B2 & B3).
        cbn [filter is_post is_failed_fetch flat_map].
        rewrite Hout, (failed_reply_no_events _ _ _ Hout).
        cbn [negb events_of app List.length]. lia.
Qed.


(** The count of a scan, for an engine that raises nothing. *)
Lemma scan_count fenv env odds tg h :
  (forall ev, exists arbs, scan_event env ev = Ok arbs) ->
  exists n new,
    scan_once float_str w fenv env odds tg h = (Returned n, h ++ new) /\
    List.length (filter is_post new) =
      (n + List.length (filter is_failed_fetch new))%nat /\
    (n <= List.length (flat_map events_of new))%nat.
Proof.
  intros Htot. unfold scan_once.
  destruct (scan_sports_delivers fenv env odds tg (DEFAULT_SPORTS fenv) 0 h)
    as (n & new & E & _ & Hc).
  destruct (Hc Htot) as (_ & H2 & H3).
  exists n, new. rewrite Nat.sub_0_r in *. auto.
Qed.

(** The first scan, for an engine that raises nothing. *)
Lemma first_scan_delivers fenv env odds tg h :
  (forall ev, exists arbs, scan_event env ev = Ok arbs) ->
  exists new,
    first_scan float_str w fenv env odds tg h = (Returned tt, h ++ new) /\
    exists x, In x new /\ is_post x = true.
Proof.
  intros Htot. unfold first_scan, io_catch, io_bind, scan_once.
  destruct (scan_sports_delivers fenv env odds tg (DEFAULT_SPORTS fenv) 0 h)
    as (n & new & -> & _ & Hc).
  destruct (Hc Htot) as (_ & H2 & _).
  destruct n as [|n]; cbn [Nat.eqb].
  - unfold log, send.
    destruct (post_delivers tg "sendMessage"
                [("chat_id", chat_id tg);
                 ("text", "ℹ️ Пока арбитраж не найден. Буду проверять дальше.")]
                (h ++ new)) as (x & -> & Hx).
    exists (new ++ [x]). rewrite <- app_assoc. split; [reflexivity|].
    exists x. split; [apply in_or_app; right; now left | exact Hx].
  - unfold io_ret. exists new. split; [reflexivity|].
    destruct (filter is_post new) as [|x l] eqn:E; [cbn in H2; lia|].
    assert (Hin : In x (filter is_post new)) by (rewrite E; now left).
    apply filter_In in Hin. exists x. exact Hin.
Qed.

End Delivering.

End ScanFacts.



(** ** The sleep between two scans *)

Section SleepFacts.

Local Open Scope Q_scope.

Lemma py_int_floor (q : Q) :
  0 <= q ->
  (0 <= py_int q)%Z /\ inject_Z (py_int q) <= q /\ q < inject_Z (py_int q) + 1.
Proof.
  intros Hq.
  assert (Hn : (0 <= Qnum q)%Z).
  { unfold Qle in Hq. simpl in Hq. lia. }
  assert (E : py_int q = Qfloor q).
  { destruct q as [n d]. unfold py_int, Qfloor. cbn [Qnum Qden] in *.
    apply Z.quot_div_nonneg; lia. }
  split; [unfold py_int; apply Z.quot_pos; lia|].
  rewrite E. split; [apply Qfloor_le|].
  pose proof (Qlt_floor q) as Hl. now rewrite inject_Z_plus in Hl.
Qed.

(** X17: the sleep completes the polling interval.  When the scan took a
    time [elapsed >= 0], the loop sleeps a whole number of seconds that is
    not negative and not above the interval, and scan and sleep together
    last at least [POLL_SECONDS]; they last less than a second more when the
    scan itself stayed within the interval. *)
Theorem sleep_completes_the_interval
    (POLL_SECONDS : Z) (elapsed : float) (q : Q) :
  float_value elapsed = Some q ->
  0 <= q ->
  exists s,
    to_sleep POLL_SECONDS elapsed = Some s /\
    (0 <= s <= Z.max 0 POLL_SECONDS)%Z /\
    inject_Z POLL_SECONDS <= q + inject_Z s /\
    (q <= inject_Z POLL_SECONDS -> q + inject_Z s < inject_Z POLL_SECONDS + 1).
Proof.
  intros Hv Hq. unfold to_sleep. rewrite Hv. eexists. split; [reflexivity|].
  destruct (py_int_floor Hq) as (H0 & Hlo & Hhi).
  set (f := py_int q) in *.
  destruct (Z.max_spec 0 (POLL_SECONDS - f)) as [[Hlt ->]|[Hle ->]].
  - assert (E : inject_Z (POLL_SECONDS - f) == inject_Z POLL_SECONDS - inject_Z f).
    { unfold Z.sub. rewrite inject_Z_plus, inject_Z_opp. reflexivity. }
    split; [lia|]. rewrite E. split; [lra|]. intros _. lra.
  - assert (Hf : inject_Z POLL_SECONDS <= inject_Z f) by (rewrite <- Zle_Qle; lia).
    change (inject_Z 0) with 0. split; [lia|]. split; [|intros Hp]; lra.
Qed.

End SleepFacts.

(** * Runs of the engine and of the driver *)

Section MoreRuns64.

Local Open Scope float_scope.

Lemma no_qualifying_listing_no_opportunity_witness :
  listings (get_list (ev_bookmakers (event_of (F := float) [pinnacle])))
           (get_list (Some ["Pinnacle"%string])) = [] /\
  find_arbs_for_event (event_of (F := float) [pinnacle]) None
                      (Some ["Pinnacle"%string]) = Ok [].
Proof.
  split; [reflexivity|].
  eapply (@no_qualifying_listing_no_opportunity float binary64
           (event_of [pinnacle]) None (Some ["Pinnacle"%string])).
  reflexivity.
Defined.

Lemma opportunity_is_well_formed_witness :
  exists opp,
    find_arbs_for_event (F := float) scenario_a (Some 0.5) None = Ok [opp] /\
    (event_id opp = ev_id (scenario_a (F := float)) /\
     sport_title opp = ev_sport_title (scenario_a (F := float)) /\
     commence_time opp = ev_commence_time (scenario_a (F := float)) /\
     home opp = ev_home_team (scenario_a (F := float)) /\
     away opp = ev_away_team (scenario_a (F := float)) /\
     (dict_len (best_odds opp) = 2 \/ dict_len (best_odds opp) = 3)%nat /\
     NoDup (dict_keys (best_odds opp)) /\
     dict_keys (best_books opp) = dict_keys (best_odds opp) /\
     dict_keys (stakes_100 opp) = dict_keys (best_odds opp)).
Proof.
  eexists. split; [vm_compute; reflexivity|].
  eapply (@opportunity_is_well_formed float binary64 scenario_a (Some 0.5) None _ []).
  vm_compute. reflexivity.
Defined.

Lemma more_bookmakers_never_lower_best_price_witness :
  dict_get (fst (_best_odds_by_outcome (F := float)
                   [one_book "X" [("A"%string, of_dec 21 1)]] []))
           "A" = Some (of_dec 21 1) /\
  exists p',
    dict_get (fst (_best_odds_by_outcome (F := float)
                     ([one_book "X" [("A"%string, of_dec 21 1)]] ++
                      [one_book "Y" [("A"%string, of_dec 25 1)]]) []))
             "A" = Some p' /\
    (of_dec 21 1 <=? p') = true.
Proof.
  split; [reflexivity|].
  eapply (@more_bookmakers_never_lower_best_price
           [one_book "X" [("A"%string, of_dec 21 1)]]
           [one_book "Y" [("A"%string, of_dec 25 1)]] [] "A" (of_dec 21 1)).
  reflexivity.
Defined.


Lemma stricter_threshold_reports_no_more_witness :
  find_arbs_for_event (F := float) scenario_a (Some 5) None = Ok [] /\
  (5 <=? 6) = true /\
  find_arbs_for_event (F := float) scenario_a (Some 6) None = Ok [].
Proof.
  split; [reflexivity|]. split; [reflexivity|].
  eapply (@stricter_threshold_reports_no_more scenario_a 5 6 None); reflexivity.
Defined.

Lemma alert_message_names_every_source_witness :
  exists opp,
    find_arbs_for_event (F := float) scenario_a (Some 0.5) None = Ok [opp] /\
    (List.length (message_lines scenario_a_str opp) =
       (10 + dict_len (best_odds opp))%nat /\
     (dict_len (best_odds opp) = 2 \/ dict_len (best_odds opp) = 3)%nat /\
     forall o p,
       In (o, p) (best_odds opp) ->
       exists bm,
         In bm (get_list (ev_bookmakers (scenario_a (F := float)))) /\
         dict_get (best_books opp) o = Some (bm_name bm) /\
         In (outcome_line scenario_a_str [(o, bm_name bm)] (o, p))
            (message_lines scenario_a_str opp)).
Proof.
  eexists. split; [vm_compute; reflexivity|].
  eapply (@alert_message_names_every_source float binary64 scenario_a_str
           scenario_a (Some 0.5) None _ []).
  vm_compute. reflexivity.
Defined.






End MoreRuns64.

Section MoreRunsExact.

Local Open Scope Q_scope.

Lemma positive_edge_is_guaranteed_profit_witness :
  ((dict_len (fst (_best_odds_by_outcome (F := Q) [pinnacle] [])) = 2 \/
    dict_len (fst (_best_odds_by_outcome (F := Q) [pinnacle] [])) = 3)%nat) /\
  0 < 100 /\
  exists e stakes payout,
    _arb_edge (fst (_best_odds_by_outcome (F := Q) [pinnacle] [])) = Ok e /\
    _stakes_for_edge (fst (_best_odds_by_outcome (F := Q) [pinnacle] [])) 100
      = Ok stakes /\
    (forall o s p,
       dict_get stakes o = Some s ->
       dict_get (fst (_best_odds_by_outcome (F := Q) [pinnacle] [])) o = Some p ->
       s * p == payout) /\
    payout * (100 - e) == 100 * 100 /\
    (0 < e <-> 100 < payout).
Proof.
  assert (Hlen : (dict_len (fst (_best_odds_by_outcome (F := Q) [pinnacle] [])) = 2 \/
                  dict_len (fst (_best_odds_by_outcome (F := Q) [pinnacle] [])) = 3)%nat)
    by (left; reflexivity).
  assert (Hb : 0 < 100) by reflexivity.
  split; [exact Hlen|]. split; [exact Hb|].
  exact (@positive_edge_is_guaranteed_profit [pinnacle] [] 100 Hlen Hb).
Defined.

Lemma positive_edge_needs_a_long_price_witness :
  ((dict_len (fst (_best_odds_by_outcome (F := Q) [pinnacle] [])) = 2 \/
    dict_len (fst (_best_odds_by_outcome (F := Q) [pinnacle] [])) = 3)%nat) /\
  exists e,
    _arb_edge (fst (_best_odds_by_outcome (F := Q) [pinnacle] [])) = Ok e /\
    0 < e /\
    exists o p,
      In (o, p) (fst (_best_odds_by_outcome (F := Q) [pinnacle] [])) /\
      inject_Z (Z.of_nat (dict_len (fst (_best_odds_by_outcome (F := Q) [pinnacle] []))))
        < p.
Proof.
  assert (Hlen : (dict_len (fst (_best_odds_by_outcome (F := Q) [pinnacle] [])) = 2 \/
                  dict_len (fst (_best_odds_by_outcome (F := Q) [pinnacle] [])) = 3)%nat)
    by (left; reflexivity).
  split; [exact Hlen|].
  eexists. split; [vm_compute; reflexivity|]. split; [reflexivity|].
  eapply (@positive_edge_needs_a_long_price [pinnacle] [] _ Hlen);
    [vm_compute; reflexivity | reflexivity].
Defined.

Lemma stakes_scale_with_bankroll_witness :
  exists stakes100 s100,
    _stakes_for_edge (fst (_best_odds_by_outcome (F := Q) [pinnacle] [])) 100
      = Ok stakes100 /\
    dict_get stakes100 "A" = Some s100 /\
    exists stakes s,
      _stakes_for_edge (fst (_best_odds_by_outcome (F := Q) [pinnacle] [])) 250
        = Ok stakes /\
      dict_get stakes "A" = Some s /\
      s == s100 * (250 / 100).
Proof.
  eexists. eexists. split; [vm_compute; reflexivity|].
  split; [vm_compute; reflexivity|].
  eapply (@stakes_scale_with_bankroll [pinnacle] [] 250 "A" _ _);
    vm_compute; reflexivity.
Defined.

Lemma sleep_completes_the_interval_witness :
  exists q,
    float_value (of_dec 37 1) = Some q /\
    0 <= q /\
    exists s,
      to_sleep 120 (of_dec 37 1) = Some s /\
      (0 <= s <= Z.max 0 120)%Z /\
      inject_Z 120 <= q + inject_Z s /\
      (q <= inject_Z 120 -> q + inject_Z s < inject_Z 120 + 1).
Proof.
  eexists. split; [vm_compute; reflexivity|]. split; [discriminate|].
  eapply (@sleep_completes_the_interval 120 (of_dec 37 1) _);
    [vm_compute; reflexivity | discriminate].
Defined.

End MoreRunsExact.
